(** * SSD anchor utilities ([ssdutils.py]): a shallow embedding

    The module computes the default (anchor) boxes of an SSD preset, the
    Jaccard overlap of two boxes, the anchors matching a ground-truth box
    and the regression target of a box against an anchor.

    Numbers.  The Python code is duck-typed over [int] and [float].
    Python [int]s are modelled by [Z].  Everything that is (or may be) a
    [float] is modelled over a type [F] carrying the operations the code
    uses (class [PyNum]).  Two instances are given:
    - [R], the exact real numbers, over which the properties are proved;
    - [float], the IEEE binary64 numbers of the kernel, which is what a
      Python [float] is, over which the functions run on concrete inputs.

    Exceptions.  A function that may raise returns a [result]. *)

From Stdlib Require Import ZArith List Sorted Reals Lra Lia.
From Stdlib Require PrimFloat Uint63.
From stdpp Require Import gmap strings.

Set Implicit Arguments.
Local Open Scope Z_scope.

(** ** Exceptions *)

Inductive exn : Type :=
| RuntimeError (msg : string)
| ZeroDivisionError
| ValueError
| IndexError
| KeyError.

Inductive result (A : Type) : Type :=
| Ok (a : A)
| Raise (e : exn).

Arguments Ok {A} a.
Arguments Raise {A} e.

Definition bind {A B : Type} (c : result A) (k : A -> result B) : result B :=
  match c with
  | Ok a => k a
  | Raise e => Raise e
  end.

Notation "x <- c ;; k" := (bind c (fun x => k))
  (at level 100, c at next level, right associativity).

(** ** Numbers *)

Class PyNum (F : Type) : Type := {
  fromZ : Z -> F;            (* int -> float promotion, [float(n)] *)
  fadd : F -> F -> F;
  fsub : F -> F -> F;
  fmul : F -> F -> F;
  fquot : F -> F -> F;       (* [/] with a non-zero divisor *)
  fsqrt : F -> F;            (* [math.sqrt] of a non-negative number *)
  feqb : F -> F -> bool;     (* [==] *)
  fltb : F -> F -> bool;     (* [<]  *)
  fleb : F -> F -> bool      (* [<=] *)
}.

Section PythonArithmetic.
Context {F : Type} `{PyNum F}.

(** [a / b]: Python raises [ZeroDivisionError] when the divisor is zero. *)
Definition pydiv (a b : F) : result F :=
  if feqb b (fromZ 0) then Raise ZeroDivisionError else Ok (fquot a b).

(** [math.sqrt(a)]: raises [ValueError] on a negative argument. *)
Definition pysqrt (a : F) : result F :=
  if fltb a (fromZ 0) then Raise ValueError else Ok (fsqrt a).

(** [max(a, b)] and [min(a, b)] keep the first argument unless the second
    is strictly greater (resp. smaller). *)
Definition pymax (a b : F) : F := if fltb a b then b else a.
Definition pymin (a b : F) : F := if fltb b a then b else a.

(** A decimal literal [m / 10^e], such as [0.2] or [0.5]: the correctly
    rounded quotient of two exactly represented integers. *)
Definition decimal (m : Z) (e : nat) : F := fquot (fromZ m) (fromZ (10 ^ Z.of_nat e)).
End PythonArithmetic.

(** The exact instance. *)
#[export] Instance PyNum_R : PyNum R := {|
  fromZ := IZR;
  fadd := Rplus;
  fsub := Rminus;
  fmul := Rmult;
  fquot := Rdiv;
  fsqrt := sqrt;
  feqb := fun a b => if Req_dec_T a b then true else false;
  fltb := fun a b => if Rlt_dec a b then true else false;
  fleb := fun a b => if Rle_dec a b then true else false
|}.

(** The binary64 instance.  [float_of_Z] is [float(n)] for the integers
    below [2^63] in absolute value (exact below [2^53]). *)
Definition float_of_Z (z : Z) : PrimFloat.float :=
  match z with
  | Z0 => PrimFloat.zero
  | Zpos _ => PrimFloat.of_uint63 (Uint63.of_Z z)
  | Zneg p => PrimFloat.opp (PrimFloat.of_uint63 (Uint63.of_Z (Zpos p)))
  end.

#[export] Instance PyNum_float : PyNum PrimFloat.float := {|
  fromZ := float_of_Z;
  fadd := PrimFloat.add;
  fsub := PrimFloat.sub;
  fmul := PrimFloat.mul;
  fquot := PrimFloat.div;
  fsqrt := PrimFloat.sqrt;
  feqb := PrimFloat.eqb;
  fltb := PrimFloat.ltb;
  fleb := PrimFloat.leb
|}.

(** ** Data model *)

(** Modelled from the spec: the named tuples [Size], [Point], [Score] and
    [Overlap] are imported from the module [utils], which is not part of
    the sources.  [Size] is (width, height), [Point] is (x, y), [Score]
    pairs an anchor index with an overlap value and [Overlap] holds the
    best score (or [None]) and the list of good scores. *)
Record Size (A : Type) : Type := mkSize { size_w : A; size_h : A }.
Record Point (A : Type) : Type := mkPoint { point_x : A; point_y : A }.
Record Score (A : Type) : Type := mkScore { score_idx : Z; score_score : A }.
Record Overlap (A : Type) : Type :=
  mkOverlap { overlap_best : option (Score A); overlap_good : list (Score A) }.

(** [SSDPreset = namedtuple('SSDPreset', ['image_size', 'num_maps',
    'map_sizes', 'num_anchors'])] *)
Record SSDPreset : Type := mkSSDPreset {
  image_size : Size Z;
  num_maps : Z;
  map_sizes : list (Size Z);
  num_anchors : Z
}.

(** [Anchor = namedtuple('Anchor', ['center', 'size', 'x', 'y', 'scale',
    'map'])] *)
Record Anchor (A : Type) : Type := mkAnchor {
  anchor_center : Point A;
  anchor_size : Size A;
  anchor_x : Z;
  anchor_y : Z;
  anchor_scale : A;
  anchor_map : Z
}.

(** ** The preset registry *)

Definition vgg300 : SSDPreset :=
  {| image_size := mkSize 300 300;
     num_maps := 6;
     map_sizes := [mkSize 38 38; mkSize 19 19; mkSize 10 10;
                   mkSize 5 5; mkSize 3 3; mkSize 1 1];
     num_anchors := 11639 |}.

Definition vgg500 : SSDPreset :=
  {| image_size := mkSize 500 500;
     num_maps := 6;
     map_sizes := [mkSize 63 63; mkSize 32 32; mkSize 16 16;
                   mkSize 8 8; mkSize 6 6; mkSize 4 4];
     num_anchors := 32174 |}.

Definition SSD_PRESETS : gmap string SSDPreset :=
  <["vgg300" := vgg300]> (<["vgg500" := vgg500]> ∅).

Definition get_preset_by_name (pname : string) : result SSDPreset :=
  match SSD_PRESETS !! pname with
  | None => Raise (RuntimeError ("No such preset: " +:+ pname))
  | Some p => Ok p
  end.

(** ** Python lists, loops and dictionaries *)

(** [range(a, b)] *)
Definition range (a b : Z) : list Z :=
  map (fun i => a + Z.of_nat i) (seq 0 (Z.to_nat (b - a))).

(** [l[i]]: a negative index counts from the end, an index out of range
    raises [IndexError]. *)
Definition list_get {A : Type} (l : list A) (i : Z) : result A :=
  let n := Z.of_nat (length l) in
  let j := if i <? 0 then i + n else i in
  if (j <? 0) || (n <=? j) then Raise IndexError
  else match nth_error l (Z.to_nat j) with
       | Some a => Ok a
       | None => Raise IndexError
       end.

(** A loop that computes one value per element, stopping at the first
    exception. *)
Fixpoint mapM {A B : Type} (f : A -> result B) (l : list A) : result (list B) :=
  match l with
  | [] => Ok []
  | a :: l' => b <- f a ;; bs <- mapM f l' ;; Ok (b :: bs)
  end.

(** A loop that appends the elements its body produces to one list. *)
Definition for_append {A B : Type} (l : list A) (body : A -> result (list B))
  : result (list B) :=
  ls <- mapM body l ;; Ok (concat ls).

(** A loop that threads a state. *)
Fixpoint foldM {A S : Type} (f : S -> A -> result S) (l : list A) (s : S) : result S :=
  match l with
  | [] => Ok s
  | a :: l' => s' <- f s a ;; foldM f l' s'
  end.

Section Dict.
Context {F : Type} `{PyNum F} {V : Type}.

(** A dictionary with numeric keys, compared by [==], in insertion order:
    the dictionary [box_sizes] of the generator is keyed by the scales. *)
Definition dict : Type := list (F * V).

(** [d[k] = v] *)
Fixpoint dict_set (d : dict) (k : F) (v : V) : dict :=
  match d with
  | [] => [(k, v)]
  | (k', v') :: d' =>
      if feqb k' k then (k', v) :: d' else (k', v') :: dict_set d' k v
  end.

(** [d[k]]: raises [KeyError] when the key is absent. *)
Fixpoint dict_get (d : dict) (k : F) : result V :=
  match d with
  | [] => Raise KeyError
  | (k', v') :: d' => if feqb k' k then Ok v' else dict_get d' k
  end.
End Dict.

Arguments dict F V : clear implicits.

(** ** Anchor generation *)

Section Anchors.
Context {F : Type} `{PyNum F}.

Definition SCALE_MIN : F := decimal 2 1.
Definition SCALE_MAX : F := decimal 9 1.
Definition SCALE_DIFF : F := fsub SCALE_MAX SCALE_MIN.

(** First loop of [get_anchors_for_preset]: the scale of every feature
    map. *)
Definition compute_scales (preset : SSDPreset) : result (list F) :=
  mapM (fun k =>
          q <- pydiv SCALE_DIFF (fromZ (num_maps preset - 1)) ;;
          Ok (fadd SCALE_MIN (fmul q (fromZ (k - 1)))))
       (range 1 (num_maps preset + 1)).

(** [list(map(lambda x: sqrt(x), [1, 2, 3, 0.5, 1/3]))] *)
Definition aspect_ratios : result (list F) :=
  third <- pydiv (fromZ 1) (fromZ 3) ;;
  mapM pysqrt [fromZ 1; fromZ 2; fromZ 3; decimal 5 1; third].

(** Body of the second loop: the list stored under [box_sizes[s]] for
    [s = scales[i]].  The source creates the list under the key [s] and
    appends to it in place; the list is built here and stored once. *)
Definition box_sizes_of_scale (scales ratios : list F) (i : Z) (s : F)
  : result (list (F * F)) :=
  sizes <- mapM (fun ratio =>
                   let w := fmul s ratio in
                   h <- pydiv s ratio ;;
                   Ok (w, h)) ratios ;;
  if i <? Z.of_nat (length scales) - 1 then
    s_next <- list_get scales (i + 1) ;;
    s_prime <- pysqrt (fmul s s_next) ;;
    Ok (sizes ++ [(s_prime, s_prime)])
  else Ok sizes.

(** Second loop: the dictionary [box_sizes], keyed by scale. *)
Definition compute_box_sizes (scales ratios : list F)
  : result (dict F (list (F * F))) :=
  foldM (fun box_sizes i =>
           s <- list_get scales i ;;
           sizes <- box_sizes_of_scale scales ratios i s ;;
           Ok (dict_set box_sizes s sizes))
        (range 0 (Z.of_nat (length scales))) [].

(** Body of the third loop: the anchors of feature map [k]. *)
Definition anchors_of_map (preset : SSDPreset) (scales : list F)
    (box_sizes : dict F (list (F * F))) (k : Z) : result (list (Anchor F)) :=
  s <- list_get scales k ;;
  map_size <- list_get (map_sizes preset) k ;;
  let fk := size_w map_size in
  for_append (range 0 fk) (fun i =>
    x <- pydiv (fadd (fromZ i) (decimal 5 1)) (fromZ fk) ;;
    for_append (range 0 fk) (fun j =>
      y <- pydiv (fadd (fromZ j) (decimal 5 1)) (fromZ fk) ;;
      sizes <- dict_get box_sizes s ;;
      Ok (map (fun size =>
                 mkAnchor (mkPoint x y) (mkSize (fst size) (snd size)) j i s k)
              sizes))).

Definition get_anchors_for_preset (preset : SSDPreset) : result (list (Anchor F)) :=
  scales <- compute_scales preset ;;
  ratios <- aspect_ratios ;;
  box_sizes <- compute_box_sizes scales ratios ;;
  for_append (range 0 (Z.of_nat (length scales)))
             (anchors_of_map preset scales box_sizes).
End Anchors.

(** ** Jaccard overlap *)

(** A box in absolute coordinates: [(xmin, xmax, ymin, ymax)]. *)
Definition params (F : Type) : Type := (F * F * F * F)%type.

Section Jaccard.
Context {F : Type} `{PyNum F}.

(** The conversions [float(w*h)] are the identity on [F]; the integer [0]
    the guards return is [fromZ 0]. *)
Definition jaccard_overlap (params1 params2 : params F) : result F :=
  let '(xmin1, xmax1, ymin1, ymax1) := params1 in
  let '(xmin2, xmax2, ymin2, ymax2) := params2 in
  if fleb xmax2 xmin1 then Ok (fromZ 0) else
  if fleb xmax1 xmin2 then Ok (fromZ 0) else
  if fleb ymax2 ymin1 then Ok (fromZ 0) else
  if fleb ymax1 ymin2 then Ok (fromZ 0) else
  let xmin := pymax xmin1 xmin2 in
  let xmax := pymin xmax1 xmax2 in
  let ymin := pymax ymin1 ymin2 in
  let ymax := pymin ymax1 ymax2 in
  let w := fsub xmax xmin in
  let h := fsub ymax ymin in
  let intersection := fmul w h in
  let w1 := fsub xmax1 xmin1 in
  let h1 := fsub ymax1 ymin1 in
  let w2 := fsub xmax2 xmin2 in
  let h2 := fsub ymax2 ymin2 in
  let union := fsub (fadd (fmul w1 h1) (fmul w2 h2)) intersection in
  pydiv intersection union.
End Jaccard.

(** ** Matching a box against the anchors *)

(** Modelled from the spec: the ground-truth box comes from the module
    [utils], which is not part of the sources; the code reads its
    proportional [center] and [size]. *)
Record Box (A : Type) : Type := mkBox { box_center : Point A; box_size : Size A }.

Section Matcher.
Context {F : Type} `{PyNum F}.

(** [prop2abs] is imported from [utils] and is not part of the sources: it
    converts a proportional center and size to absolute
    [(xmin, xmax, ymin, ymax)] for a reference image size.  It is a
    parameter of the matcher. *)
Variable prop2abs : Point F -> Size F -> Size Z -> params F.

(** The loop of [compute_overlap] from index [i] on, with the loop state
    [best], [good]. *)
Fixpoint compute_overlap_loop (bparams : params F) (threshold : F)
    (anchors : list (Anchor F)) (i : Z)
    (best : option (Score F)) (good : list (Score F)) : result (Overlap F) :=
  match anchors with
  | [] => Ok (mkOverlap best good)
  | anchor :: rest =>
      let aparams := prop2abs (anchor_center anchor) (anchor_size anchor)
                              (mkSize 1000 1000) in
      jaccard <- jaccard_overlap bparams aparams ;;
      if feqb jaccard (fromZ 0) then
        compute_overlap_loop bparams threshold rest (i + 1) best good
      else
        let best :=
          match best with
          | None => Some (mkScore i jaccard)
          | Some b => if fltb (score_score b) jaccard
                      then Some (mkScore i jaccard) else Some b
          end in
        let good :=
          if fltb threshold jaccard then good ++ [mkScore i jaccard] else good in
        compute_overlap_loop bparams threshold rest (i + 1) best good
  end.

Definition compute_overlap (box : Box F) (anchors : list (Anchor F))
    (threshold : F) : result (Overlap F) :=
  let imgsize := mkSize 1000 1000 in
  let bparams := prop2abs (box_center box) (box_size box) imgsize in
  compute_overlap_loop bparams threshold anchors 0 None [].
End Matcher.

(** ** Regression target *)

(** [math.log] *)
Class PyLog (F : Type) : Type := flog : F -> F.

#[export] Instance PyLog_R : PyLog R := ln.

Section Location.
Context {F : Type} `{PyNum F} `{PyLog F}.

(** [math.log(a)]: raises [ValueError] unless the argument is positive. *)
Definition pylog (a : F) : result F :=
  if fleb a (fromZ 0) then Raise ValueError else Ok (flog a).

(** The array [arr] is returned as the list of its four entries. *)
Definition compute_location (box : Box F) (anchor : Anchor F) : result (list F) :=
  arr0 <- pydiv (fsub (point_x (box_center box)) (point_x (anchor_center anchor)))
                (size_w (anchor_size anchor)) ;;
  arr1 <- pydiv (fsub (point_y (box_center box)) (point_y (anchor_center anchor)))
                (size_h (anchor_size anchor)) ;;
  qw <- pydiv (size_w (box_size box)) (size_w (anchor_size anchor)) ;;
  arr2 <- pylog qw ;;
  qh <- pydiv (size_h (box_size box)) (size_h (anchor_size anchor)) ;;
  arr3 <- pylog qh ;;
  Ok [arr0; arr1; arr2; arr3].
End Location.

(** * Vocabulary of the properties *)

(** ** Presets used as examples *)

(** A preset with two maps that are not square. *)
Definition two_maps : SSDPreset :=
  {| image_size := mkSize 300 300;
     num_maps := 2;
     map_sizes := [mkSize 2 3; mkSize 1 5];
     num_anchors := 29 |}.

(** A preset with a single feature map. *)
Definition one_map : SSDPreset :=
  {| image_size := mkSize 300 300;
     num_maps := 1;
     map_sizes := [mkSize 1 1];
     num_anchors := 5 |}.

(** The preset with the height of every feature map replaced by its
    width. *)
Definition with_square_maps (preset : SSDPreset) : SSDPreset :=
  {| image_size := image_size preset;
     num_maps := num_maps preset;
     map_sizes := map (fun s => mkSize (size_w s) (size_w s)) (map_sizes preset);
     num_anchors := num_anchors preset |}.

(** ** Anchors *)

(** The anchors of a preset, given the scales and the box sizes the first
    two loops computed: [a] is an anchor of feature map [anchor_map a],
    whose grid size [fk] is the width of that map; its scale is the scale
    of the map; its fields [y] and [x] are the values of the loop variables
    [i] and [j], both in [0, fk); its center is [(i + 0.5) / fk] and
    [(j + 0.5) / fk]; its size is one of the box sizes of the scale. *)
Definition is_anchor {F : Type} `{PyNum F} (preset : SSDPreset) (scales : list F)
    (box_sizes : dict F (list (F * F))) (a : Anchor F) : Prop :=
  exists (map_size : Size Z) (sizes : list (F * F)),
    0 <= anchor_map a < Z.of_nat (length scales) /\
    list_get scales (anchor_map a) = Ok (anchor_scale a) /\
    list_get (map_sizes preset) (anchor_map a) = Ok map_size /\
    0 <= anchor_y a < size_w map_size /\
    0 <= anchor_x a < size_w map_size /\
    pydiv (fadd (fromZ (anchor_y a)) (decimal 5 1)) (fromZ (size_w map_size))
      = Ok (point_x (anchor_center a)) /\
    pydiv (fadd (fromZ (anchor_x a)) (decimal 5 1)) (fromZ (size_w map_size))
      = Ok (point_y (anchor_center a)) /\
    dict_get box_sizes (anchor_scale a) = Ok sizes /\
    In (size_w (anchor_size a), size_h (anchor_size a)) sizes.

(** The cell of an anchor: its feature map, grid row and grid column. *)
Definition cell {F : Type} (a : Anchor F) : Z * Z * Z :=
  (anchor_map a, anchor_y a, anchor_x a).

(** The cells of the anchors of feature map [k], of grid size [fk], with
    [shapes] box shapes per cell, in the order of the loops. *)
Definition cells_of_map (k fk : Z) (shapes : nat) : list (Z * Z * Z) :=
  flat_map (fun i => flat_map (fun j => repeat (k, i, j) shapes) (range 0 fk))
           (range 0 fk).

(** The grid size of feature map [k] (0 when there is no such map). *)
Definition grid_size (preset : SSDPreset) (k : Z) : Z :=
  match list_get (map_sizes preset) k with
  | Ok map_size => size_w map_size
  | Raise _ => 0
  end.

(** The cells of the anchors of a preset when every feature map but the
    last has six box shapes per cell and the last has five. *)
Definition expected_cells (preset : SSDPreset) : list (Z * Z * Z) :=
  flat_map (fun k => cells_of_map k (grid_size preset k)
                       (if k <? num_maps preset - 1 then 6 else 5))
           (range 0 (num_maps preset)).

(** The number of box shapes of feature map [k]. *)
Definition shapes_of_map {F : Type} `{PyNum F} (scales : list F) (box_sizes : dict F (list (F * F)))
    (k : Z) : nat :=
  match (s <- list_get scales k ;; dict_get box_sizes s) with
  | Ok sizes => length sizes
  | Raise _ => 0
  end.

(** The scale of feature map [k] (counted from 1) among [K] maps. *)
Definition scale_of (K k : Z) : R :=
  (2 / 10 + (9 / 10 - 2 / 10) / IZR (K - 1) * IZR (k - 1))%R.

(** Scales that are pairwise different, as dictionary keys must be for
    every feature map to keep its own list of box sizes. *)
Definition distinct (scales : list R) : Prop :=
  forall (i j : nat) (s s' : R),
    nth_error scales i = Some s -> nth_error scales j = Some s' -> i <> j -> s <> s'.

(** ** Boxes in absolute coordinates *)

(** Well-formed absolute boxes and their area. *)
Definition well_formed (p : params R) : Prop :=
  let '(xmin, xmax, ymin, ymax) := p in (xmin <= xmax /\ ymin <= ymax)%R.

Definition area (p : params R) : R :=
  let '(xmin, xmax, ymin, ymax) := p in ((xmax - xmin) * (ymax - ymin))%R.


(** Two boxes overlap when none of the four guards of [jaccard_overlap]
    holds; the areas of their intersection and of their union. *)
Definition overlapping (p1 p2 : params R) : Prop :=
  let '(xmin1, xmax1, ymin1, ymax1) := p1 in
  let '(xmin2, xmax2, ymin2, ymax2) := p2 in
  (xmin1 < xmax2 /\ xmin2 < xmax1 /\ ymin1 < ymax2 /\ ymin2 < ymax1)%R.

Definition intersection_area (p1 p2 : params R) : R :=
  let '(xmin1, xmax1, ymin1, ymax1) := p1 in
  let '(xmin2, xmax2, ymin2, ymax2) := p2 in
  ((Rmin xmax1 xmax2 - Rmax xmin1 xmin2) * (Rmin ymax1 ymax2 - Rmax ymin1 ymin2))%R.

Definition union_area (p1 p2 : params R) : R :=
  (area p1 + area p2 - intersection_area p1 p2)%R.

(** ** Matching *)

(** Modelled from the spec: [prop2abs] is not part of the sources.  The
    spec describes it as the conversion of a proportional center and size
    to absolute [(xmin, xmax, ymin, ymax)] for a reference image size.
    This conversion only serves to run the matcher on concrete inputs; the
    properties of the matcher hold for every conversion. *)
Definition prop2abs_example {F : Type} `{PyNum F}
    (center : Point F) (size : Size F) (imgsize : Size Z) : params F :=
  let width2 := fquot (fmul (size_w size) (fromZ (size_w imgsize))) (fromZ 2) in
  let height2 := fquot (fmul (size_h size) (fromZ (size_h imgsize))) (fromZ 2) in
  let cx := fmul (point_x center) (fromZ (size_w imgsize)) in
  let cy := fmul (point_y center) (fromZ (size_h imgsize)) in
  (fsub cx width2, fadd cx width2, fsub cy height2, fadd cy height2).

(** An anchor (or box) given by its center and size alone. *)
Definition anchor_at {F : Type} `{PyNum F} (cx cy w h : F) : Anchor F :=
  mkAnchor (mkPoint cx cy) (mkSize w h) 0 0 (fromZ 0) 0.

(** The overlaps of a box with the anchors, in anchor order. *)
Definition overlaps {F : Type} `{PyNum F}
    (prop2abs : Point F -> Size F -> Size Z -> params F)
    (box : Box F) (anchors : list (Anchor F)) : result (list F) :=
  mapM (fun anchor =>
          jaccard_overlap
            (prop2abs (box_center box) (box_size box) (mkSize 1000 1000))
            (prop2abs (anchor_center anchor) (anchor_size anchor) (mkSize 1000 1000)))
       anchors.

(** The overlaps paired with their anchor index, counted from [i]. *)
Fixpoint indexed {A : Type} (i : Z) (l : list A) : list (Z * A) :=
  match l with
  | [] => []
  | a :: l' => (i, a) :: indexed (i + 1) l'
  end.

(** One iteration of the loop of [compute_overlap] on the overlap [j] of
    anchor [n], as a function of the loop state. *)
Definition match_step {F : Type} `{PyNum F} (threshold : F)
    (st : option (Score F) * list (Score F)) (nj : Z * F)
  : option (Score F) * list (Score F) :=
  let '(best, good) := st in
  let '(n, j) := nj in
  if feqb j (fromZ 0) then (best, good)
  else
    (match best with
     | None => Some (mkScore n j)
     | Some b => if fltb (score_score b) j then Some (mkScore n j) else Some b
     end,
     if fltb threshold j then good ++ [mkScore n j] else good).

(** What the best score is, given the overlaps [js] of the anchors: absent
    when every overlap is zero; otherwise the score of an anchor [n] whose
    overlap is not zero, is at least every other non-zero overlap, and is
    strictly greater than the non-zero overlaps of the anchors before
    [n]. *)
Definition best_of (js : list R) (best : option (Score R)) : Prop :=
  match best with
  | None => forall j, In j js -> j = 0%R
  | Some b =>
      exists n : nat,
        score_idx b = Z.of_nat n /\
        nth_error js n = Some (score_score b) /\
        score_score b <> 0%R /\
        (forall m j, nth_error js m = Some j -> j <> 0%R -> (j <= score_score b)%R) /\
        (forall m j, nth_error js m = Some j -> (m < n)%nat -> j <> 0%R ->
                     (j < score_score b)%R)
  end.

(** The scores the loop appends to [good]: those of the anchors whose
    overlap is not zero and exceeds the threshold. *)
Definition good_of {F : Type} `{PyNum F} (threshold : F) (js : list F)
  : list (Score F) :=
  map (fun nj => mkScore (fst nj) (snd nj))
      (List.filter (fun nj => negb (feqb (snd nj) (fromZ 0)) && fltb threshold (snd nj))
              (indexed 0 js)).

(** ** Regression target *)

(** The decoding of a delta vector against an anchor, as the round-trip
    property words it: the center moves by the deltas scaled by the anchor
    size, the size is the anchor size scaled by the exponentials. *)
Definition decode_location (anchor : Anchor R) (dx dy dw dh : R) : Box R :=
  mkBox
    (mkPoint (point_x (anchor_center anchor) + dx * size_w (anchor_size anchor))%R
             (point_y (anchor_center anchor) + dy * size_h (anchor_size anchor))%R)
    (mkSize (size_w (anchor_size anchor) * exp dw)%R
            (size_h (anchor_size anchor) * exp dh)%R).

(** ** Further vocabulary *)

(** A box scaled by [c] and moved by [(tx, ty)]. *)
Definition transform (c tx ty : R) (p : params R) : params R :=
  let '(xmin, xmax, ymin, ymax) := p in
  (c * xmin + tx, c * xmax + tx, c * ymin + ty, c * ymax + ty)%R.

(** A box of positive width and height. *)
Definition proper (p : params R) : Prop :=
  let '(xmin, xmax, ymin, ymax) := p in (xmin < xmax /\ ymin < ymax)%R.

(** The first box lies inside the second. *)
Definition inside (p1 p2 : params R) : Prop :=
  let '(xmin1, xmax1, ymin1, ymax1) := p1 in
  let '(xmin2, xmax2, ymin2, ymax2) := p2 in
  (xmin2 <= xmin1 /\ xmax1 <= xmax2 /\ ymin2 <= ymin1 /\ ymax1 <= ymax2)%R.

(** The number of anchors of a preset when every feature map but the last
    has six box shapes per cell and the last has five: the sum over the
    feature maps of the square of the grid size times the number of
    shapes. *)
Definition expected_count (preset : SSDPreset) : Z :=
  fold_right Z.add 0
    (map (fun k => Z.max 0 (grid_size preset k) * Z.max 0 (grid_size preset k)
                   * (if k <? num_maps preset - 1 then 6 else 5))
         (range 0 (num_maps preset))).

(** The order of the cells: by feature map, then by row, then by column. *)
Definition cell_le (c1 c2 : Z * Z * Z) : Prop :=
  let '(k1, i1, j1) := c1 in
  let '(k2, i2, j2) := c2 in
  k1 < k2 \/ (k1 = k2 /\ (i1 < i2 \/ (i1 = i2 /\ j1 <= j2))).

(** A score with its anchor index moved by [n], and the better of two best
    scores, the first one winning a tie. *)
Definition shift_score {F : Type} (n : Z) (sc : Score F) : Score F :=
  mkScore (score_idx sc + n) (score_score sc).

Definition merge_best {F : Type} `{PyNum F} (b1 b2 : option (Score F))
  : option (Score F) :=
  match b1, b2 with
  | None, _ => b2
  | Some _, None => b1
  | Some s1, Some s2 => if fltb (score_score s1) (score_score s2) then b2 else b1
  end.

(** * Properties *)

(** ** The preset registry *)

(** C9.  [get_preset_by_name] is a function of the name alone: it returns
    the preset registered under the name when there is one, and otherwise
    raises the [RuntimeError] "No such preset: <name>"; the presets of the
    300x300 and 500x500 networks are registered (as "vgg300" and
    "vgg500"), and they are the only ones. *)
Theorem get_preset_by_name_spec (pname : string) :
  (forall p, SSD_PRESETS !! pname = Some p <-> get_preset_by_name pname = Ok p) /\
  (SSD_PRESETS !! pname = None <->
   get_preset_by_name pname = Raise (RuntimeError ("No such preset: " +:+ pname))) /\
  (forall e, get_preset_by_name pname = Raise e ->
             e = RuntimeError ("No such preset: " +:+ pname)) /\
  get_preset_by_name "vgg300" = Ok vgg300 /\
  get_preset_by_name "vgg500" = Ok vgg500 /\
  image_size vgg300 = mkSize 300 300 /\
  image_size vgg500 = mkSize 500 500 /\
  (pname <> "vgg300"%string -> pname <> "vgg500"%string ->
   get_preset_by_name pname = Raise (RuntimeError ("No such preset: " +:+ pname))).
Proof.
  unfold get_preset_by_name.
  repeat split; try (intros; destruct (SSD_PRESETS !! pname); congruence).
  intros H300 H500. unfold SSD_PRESETS.
  rewrite lookup_insert_ne by congruence.
  rewrite lookup_insert_ne by congruence.
  rewrite lookup_empty. reflexivity.
Qed.

(** * The exact instance: comparisons and partial operations on [R] *)

Section RealFacts.
Local Open Scope R_scope.

Lemma feqb_R_true (a b : R) : a = b -> feqb a b = true.
Proof. intros E. cbn. destruct (Req_dec_T a b); [reflexivity | contradiction]. Qed.

Lemma feqb_R_false (a b : R) : a <> b -> feqb a b = false.
Proof. intros E. cbn. destruct (Req_dec_T a b); [contradiction | reflexivity]. Qed.

Lemma feqb_R_iff (a b : R) : feqb a b = true <-> a = b.
Proof. cbn. destruct (Req_dec_T a b); split; intros; congruence. Qed.

Lemma fltb_R_true (a b : R) : a < b -> fltb a b = true.
Proof. intros E. cbn. destruct (Rlt_dec a b); [reflexivity | contradiction]. Qed.

Lemma fltb_R_false (a b : R) : b <= a -> fltb a b = false.
Proof. intros E. cbn. destruct (Rlt_dec a b); [lra | reflexivity]. Qed.

Lemma fltb_R_iff (a b : R) : fltb a b = true <-> a < b.
Proof. cbn. destruct (Rlt_dec a b); split; intros; (congruence || lra). Qed.

Lemma fleb_R_true (a b : R) : a <= b -> fleb a b = true.
Proof. intros E. cbn. destruct (Rle_dec a b); [reflexivity | contradiction]. Qed.

Lemma fleb_R_false (a b : R) : b < a -> fleb a b = false.
Proof. intros E. cbn. destruct (Rle_dec a b); [lra | reflexivity]. Qed.

Lemma pydiv_R (a b : R) : b <> 0 -> pydiv a b = Ok (a / b).
Proof. intros E. unfold pydiv. rewrite feqb_R_false by exact E. reflexivity. Qed.

Lemma pydiv_R_zero (a b : R) : b = 0 -> pydiv a b = Raise ZeroDivisionError.
Proof. intros E. unfold pydiv. rewrite feqb_R_true by exact E. reflexivity. Qed.

Lemma pysqrt_R (a : R) : 0 <= a -> pysqrt a = Ok (sqrt a).
Proof. intros E. unfold pysqrt. rewrite fltb_R_false by exact E. reflexivity. Qed.

Lemma pylog_R (a : R) : 0 < a -> pylog a = Ok (ln a).
Proof. intros E. unfold pylog. rewrite fleb_R_false by exact E. reflexivity. Qed.

Lemma pymax_R (a b : R) : pymax a b = Rmax a b.
Proof.
  unfold pymax, Rmax. cbn.
  destruct (Rlt_dec a b), (Rle_dec a b); try reflexivity; lra.
Qed.

Lemma pymin_R (a b : R) : pymin a b = Rmin a b.
Proof.
  unfold pymin, Rmin. cbn.
  destruct (Rlt_dec b a), (Rle_dec a b); try reflexivity; lra.
Qed.

Lemma decimal_R (m : Z) (e : nat) : decimal m e = IZR m / IZR (10 ^ Z.of_nat e).
Proof. reflexivity. Qed.
End RealFacts.

(** * Regression target *)



(** * Jaccard overlap *)

Section JaccardFacts.
Local Open Scope R_scope.

(** The four guards, on the reals. *)
Lemma jaccard_overlap_guard (xmin1 xmax1 ymin1 ymax1 xmin2 xmax2 ymin2 ymax2 : R) :
  xmax2 <= xmin1 \/ xmax1 <= xmin2 \/ ymax2 <= ymin1 \/ ymax1 <= ymin2 ->
  jaccard_overlap (xmin1, xmax1, ymin1, ymax1) (xmin2, xmax2, ymin2, ymax2) = Ok 0.
Proof.
  intros G. unfold jaccard_overlap. cbn [fleb PyNum_R fromZ].
  destruct (Rle_dec xmax2 xmin1); [reflexivity|].
  destruct (Rle_dec xmax1 xmin2); [reflexivity|].
  destruct (Rle_dec ymax2 ymin1); [reflexivity|].
  destruct (Rle_dec ymax1 ymin2); [reflexivity|].
  lra.
Qed.

(** Past the guards the result is the quotient of the intersection by the
    union. *)
Lemma jaccard_overlap_quotient (xmin1 xmax1 ymin1 ymax1 xmin2 xmax2 ymin2 ymax2 : R) :
  xmin1 < xmax2 -> xmin2 < xmax1 -> ymin1 < ymax2 -> ymin2 < ymax1 ->
  jaccard_overlap (xmin1, xmax1, ymin1, ymax1) (xmin2, xmax2, ymin2, ymax2) =
  pydiv ((Rmin xmax1 xmax2 - Rmax xmin1 xmin2) * (Rmin ymax1 ymax2 - Rmax ymin1 ymin2))
        ((xmax1 - xmin1) * (ymax1 - ymin1) + (xmax2 - xmin2) * (ymax2 - ymin2)
         - (Rmin xmax1 xmax2 - Rmax xmin1 xmin2) * (Rmin ymax1 ymax2 - Rmax ymin1 ymin2)).
Proof.
  intros G1 G2 G3 G4. unfold jaccard_overlap.
  rewrite !fleb_R_false by assumption.
  rewrite !pymax_R, !pymin_R. reflexivity.
Qed.
End JaccardFacts.




(** * Matching *)

Section MatcherFacts.
Context {F : Type} `{PyNum F}.
Variable prop2abs : Point F -> Size F -> Size Z -> params F.

Lemma compute_overlap_loop_fold (bparams : params F) (threshold : F)
    (anchors : list (Anchor F)) :
  forall (js : list F) (i : Z) (best : option (Score F)) (good : list (Score F)),
  mapM (fun anchor =>
          jaccard_overlap bparams
            (prop2abs (anchor_center anchor) (anchor_size anchor) (mkSize 1000 1000)))
       anchors = Ok js ->
  compute_overlap_loop prop2abs bparams threshold anchors i best good
  = Ok (let st := fold_left (match_step threshold) (indexed i js) (best, good) in
        mkOverlap (fst st) (snd st)).
Proof.
  induction anchors as [|anchor rest IH]; intros js i best good E.
  - cbn in E. injection E as <-. reflexivity.
  - cbn [mapM] in E. cbn [compute_overlap_loop].
    destruct (jaccard_overlap bparams _) as [j|e]; cbn [bind] in *; [|discriminate].
    destruct (mapM _ rest) as [js'|e] eqn:E'; cbn [bind] in E; [|discriminate].
    injection E as <-. cbn [indexed fold_left match_step].
    destruct (feqb j (fromZ 0)); apply IH; reflexivity.
Qed.

Lemma compute_overlap_fold (box : Box F) (anchors : list (Anchor F))
    (threshold : F) (js : list F) :
  overlaps prop2abs box anchors = Ok js ->
  compute_overlap prop2abs box anchors threshold
  = Ok (let st := fold_left (match_step threshold) (indexed 0 js) (None, []) in
        mkOverlap (fst st) (snd st)).
Proof. intros E. apply compute_overlap_loop_fold. exact E. Qed.

(** An exception of [jaccard_overlap] is an exception of [compute_overlap]. *)
Lemma compute_overlap_loop_raise (bparams : params F) (threshold : F)
    (anchors : list (Anchor F)) :
  forall (e : exn) (i : Z) (best : option (Score F)) (good : list (Score F)),
  mapM (fun anchor =>
          jaccard_overlap bparams
            (prop2abs (anchor_center anchor) (anchor_size anchor) (mkSize 1000 1000)))
       anchors = Raise e ->
  compute_overlap_loop prop2abs bparams threshold anchors i best good = Raise e.
Proof.
  induction anchors as [|anchor rest IH]; intros e i best good E.
  - discriminate.
  - cbn [mapM] in E. cbn [compute_overlap_loop].
    destruct (jaccard_overlap bparams _) as [j|e']; cbn [bind] in *; [|congruence].
    destruct (mapM _ rest) as [js'|e'] eqn:E'; cbn [bind] in E; [discriminate|].
    injection E as <-.
    destruct (feqb j (fromZ 0)); apply IH; reflexivity.
Qed.

Lemma compute_overlap_raise (box : Box F) (anchors : list (Anchor F))
    (threshold : F) (e : exn) :
  overlaps prop2abs box anchors = Raise e ->
  compute_overlap prop2abs box anchors threshold = Raise e.
Proof. intros E. apply compute_overlap_loop_raise. exact E. Qed.

Lemma indexed_app {A : Type} (l l' : list A) :
  forall i, indexed i (l ++ l') = indexed i l ++ indexed (i + Z.of_nat (length l)) l'.
Proof.
  induction l as [|a l IH]; intros i; cbn [indexed app].
  - f_equal. cbn [length]. lia.
  - rewrite IH, length_cons, Nat2Z.inj_succ.
    replace (i + Z.succ (Z.of_nat (length l))) with (i + 1 + Z.of_nat (length l)) by lia.
    reflexivity.
Qed.
End MatcherFacts.

Section IndexedFacts.
Context {A : Type}.

Lemma indexed_In (l : list A) :
  forall (i n : Z) (a : A),
  In (n, a) (indexed i l) <->
  exists m : nat, n = i + Z.of_nat m /\ nth_error l m = Some a.
Proof.
  induction l as [|x l IH]; intros i n a; cbn [indexed In].
  - split; [contradiction | intros [[|m] [_ E]]; discriminate].
  - rewrite IH. split.
    + intros [E | [m [En Em]]].
      * injection E as <- <-. exists 0%nat. split; [lia | reflexivity].
      * exists (S m). split; [lia | exact Em].
    + intros [[|m] [En Em]].
      * left. cbn in Em. injection Em as <-. f_equal. lia.
      * right. exists m. split; [lia | exact Em].
Qed.

Lemma indexed_lower (l : list A) :
  forall (i : Z), Forall (fun na => i <= fst na) (indexed i l).
Proof.
  induction l as [|x l IH]; intros i; cbn [indexed]; constructor.
  - cbn. lia.
  - eapply Forall_impl; [apply (IH (i + 1))|]. cbn. intros. lia.
Qed.

Lemma indexed_sorted (l : list A) (keep : Z * A -> bool) :
  forall (i : Z),
  StronglySorted (fun a b => fst a < fst b) (List.filter keep (indexed i l)).
Proof.
  induction l as [|x l IH]; intros i; cbn [indexed List.filter].
  - constructor.
  - destruct (keep (i, x)); [|apply IH].
    constructor; [apply IH|].
    apply List.Forall_forall. intros na Hin.
    apply filter_In in Hin as [Hin _].
    pose proof (indexed_lower l (i + 1)) as L.
    rewrite List.Forall_forall in L. specialize (L na Hin). cbn. lia.
Qed.
End IndexedFacts.

Section GoodFacts.
Context {F : Type} `{PyNum F}.

Lemma fold_match_step_good (threshold : F) (l : list (Z * F)) :
  forall (best : option (Score F)) (good : list (Score F)),
  snd (fold_left (match_step threshold) l (best, good))
  = good ++ map (fun nj => mkScore (fst nj) (snd nj))
                (List.filter (fun nj => negb (feqb (snd nj) (fromZ 0))
                                   && fltb threshold (snd nj)) l).
Proof.
  induction l as [|[n j] l IH]; intros best good; cbn [fold_left List.filter].
  - cbn. rewrite app_nil_r. reflexivity.
  - unfold match_step at 2. cbn [snd fst].
    destruct (feqb j (fromZ 0)); cbn [negb andb]; [apply IH|].
    rewrite IH. destruct (fltb threshold j); [|reflexivity].
    cbn [map]. rewrite <- app_assoc. reflexivity.
Qed.
End GoodFacts.

Section BestFacts.
Local Open Scope R_scope.

Lemma fold_match_step_best (threshold : R) (js : list R) :
  best_of js (fst (fold_left (match_step threshold) (indexed 0 js) (None, []))).
Proof.
  induction js as [|j js IH] using rev_ind; [cbn; contradiction|].
  rewrite indexed_app, fold_left_app. cbn [indexed fold_left].
  destruct (fold_left (match_step threshold) (indexed 0 js) (None, []))
    as [best good]. cbn [fst] in IH.
  assert (Hlast : nth_error (js ++ [j]) (length js) = Some j).
  { rewrite nth_error_app2 by lia. rewrite Nat.sub_diag. reflexivity. }
  assert (Hnth : forall m x, nth_error (js ++ [j]) m = Some x ->
                 (m < length js)%nat /\ nth_error js m = Some x \/
                 m = length js /\ x = j).
  { intros m x E. destruct (Nat.lt_ge_cases m (length js)) as [L|L].
    - left. split; [exact L|]. rewrite nth_error_app1 in E by exact L. exact E.
    - right. assert (Hm : (m < length (js ++ [j]))%nat)
        by (apply nth_error_Some; congruence).
      rewrite length_app in Hm. cbn in Hm.
      assert (m = length js) by lia. subst m. split; [reflexivity|]. congruence. }
  unfold match_step. cbn [fst].
  destruct (Req_dec_T j 0) as [Z0|NZ].
  - rewrite feqb_R_true by exact Z0. cbn [fst].
    destruct best as [b|]; cbn [best_of] in *.
    + destruct IH as [n [Hi [Hn [Hnz [Hmax Hfirst]]]]].
      assert (Ln : (n < length js)%nat) by (apply nth_error_Some; congruence).
      exists n. split; [exact Hi|]. split.
      { rewrite nth_error_app1 by exact Ln. exact Hn. }
      split; [exact Hnz|]. split.
      * intros m x E Nx. destruct (Hnth m x E) as [[_ E']|[_ ->]];
          [eauto | contradiction].
      * intros m x E Lm Nx. destruct (Hnth m x E) as [[_ E']|[_ ->]];
          [eauto | contradiction].
    + intros x Hx. apply in_app_or in Hx as [Hx|[<-|[]]]; [auto | exact Z0].
  - rewrite feqb_R_false by exact NZ. cbn [fst].
    destruct best as [b|]; cbn [best_of] in IH.
    + destruct IH as [n [Hi [Hn [Hnz [Hmax Hfirst]]]]].
      assert (Ln : (n < length js)%nat) by (apply nth_error_Some; congruence).
      destruct (Rlt_dec (score_score b) j) as [Lt|Ge].
      * rewrite fltb_R_true by exact Lt. cbn [best_of score_idx score_score].
        exists (length js). split; [lia|]. split; [exact Hlast|].
        split; [exact NZ|]. split.
        -- intros m x E Nx. destruct (Hnth m x E) as [[_ E']|[_ ->]]; [|lra].
           specialize (Hmax m x E' Nx). lra.
        -- intros m x E Lm Nx. destruct (Hnth m x E) as [[_ E']|[-> _]]; [|lia].
           specialize (Hmax m x E' Nx). lra.
      * rewrite fltb_R_false by lra. cbn [best_of].
        exists n. split; [exact Hi|]. split.
        { rewrite nth_error_app1 by exact Ln. exact Hn. }
        split; [exact Hnz|]. split.
        -- intros m x E Nx. destruct (Hnth m x E) as [[_ E']|[_ ->]]; [eauto | lra].
        -- intros m x E Lm Nx. destruct (Hnth m x E) as [[_ E']|[-> _]]; [eauto | lia].
    + cbn [best_of score_idx score_score].
      exists (length js). split; [lia|]. split; [exact Hlast|].
      split; [exact NZ|]. split.
      * intros m x E Nx. destruct (Hnth m x E) as [[_ E']|[_ ->]]; [|lra].
        apply nth_error_In in E'. apply IH in E'. contradiction.
      * intros m x E Lm Nx. destruct (Hnth m x E) as [[_ E']|[-> _]]; [|lia].
        apply nth_error_In in E'. apply IH in E'. contradiction.
Qed.
End BestFacts.

Section MatcherExamples.
Local Open Scope R_scope.

Lemma jaccard_overlap_value (xmin1 xmax1 ymin1 ymax1 xmin2 xmax2 ymin2 ymax2 v : R) :
  xmin1 < xmax2 -> xmin2 < xmax1 -> ymin1 < ymax2 -> ymin2 < ymax1 ->
  (xmax1 - xmin1) * (ymax1 - ymin1) + (xmax2 - xmin2) * (ymax2 - ymin2)
  - (Rmin xmax1 xmax2 - Rmax xmin1 xmin2) * (Rmin ymax1 ymax2 - Rmax ymin1 ymin2) <> 0 ->
  (Rmin xmax1 xmax2 - Rmax xmin1 xmin2) * (Rmin ymax1 ymax2 - Rmax ymin1 ymin2)
  = v * ((xmax1 - xmin1) * (ymax1 - ymin1) + (xmax2 - xmin2) * (ymax2 - ymin2)
         - (Rmin xmax1 xmax2 - Rmax xmin1 xmin2) * (Rmin ymax1 ymax2 - Rmax ymin1 ymin2)) ->
  jaccard_overlap (xmin1, xmax1, ymin1, ymax1) (xmin2, xmax2, ymin2, ymax2) = Ok v.
Proof.
  intros G1 G2 G3 G4 U E.
  rewrite (jaccard_overlap_quotient G1 G2 G3 G4).
  rewrite pydiv_R by exact U. f_equal.
  set (i := (Rmin xmax1 xmax2 - Rmax xmin1 xmin2)
            * (Rmin ymax1 ymax2 - Rmax ymin1 ymin2)) in *.
  set (u := (xmax1 - xmin1) * (ymax1 - ymin1) + (xmax2 - xmin2) * (ymax2 - ymin2) - i)
    in *.
  rewrite E. field. exact U.
Qed.

(** A box in the middle of the image against an anchor in a corner, away
    from it, and an anchor equal to the box. *)
Lemma overlaps_example :
  overlaps prop2abs_example
    (mkBox (mkPoint (1/2) (1/2)) (mkSize (1/2) (1/2)))
    [anchor_at (1/10) (1/10) (1/10) (1/10); anchor_at (1/2) (1/2) (1/2) (1/2)]
  = Ok [0; 1].
Proof.
  unfold overlaps, prop2abs_example, anchor_at.
  cbn [mapM box_center box_size anchor_center anchor_size point_x point_y
       size_w size_h fromZ PyNum_R fsub fadd fmul fquot].
  rewrite jaccard_overlap_guard by lra. cbn [bind].
  rewrite (@jaccard_overlap_value _ _ _ _ _ _ _ _ 1);
    try lra;
    try (unfold Rmin, Rmax;
         repeat match goal with
                | |- context [Rle_dec ?a ?b] => destruct (Rle_dec a b); try lra
                end).
  reflexivity.
Qed.
End MatcherExamples.

(** C3.  When the overlap of the box with every anchor is defined,
    [compute_overlap] returns, and its best score is absent exactly when
    every overlap is zero (so also for no anchors at all); otherwise it
    pairs an anchor index with the overlap of that anchor, which is not
    zero, is at least every non-zero overlap, and is strictly greater than
    the non-zero overlap of every earlier anchor: the earliest anchor
    attaining the maximum, a later equal overlap never replacing it.  When
    some overlap is positive, the best score is the greatest overlap. *)
Theorem compute_overlap_best
    (prop2abs : Point R -> Size R -> Size Z -> params R)
    (box : Box R) (anchors : list (Anchor R)) (threshold : R) (js : list R) :
  overlaps prop2abs box anchors = Ok js ->
  exists ov : Overlap R,
    compute_overlap prop2abs box anchors threshold = Ok ov /\
    best_of js (overlap_best ov) /\
    (overlap_best ov = None <-> forall j, In j js -> j = 0%R) /\
    (anchors = [] -> overlap_best ov = None) /\
    (forall b, overlap_best ov = Some b ->
               (exists j, In j js /\ (0 < j)%R) ->
               (0 < score_score b)%R /\
               forall j, In j js -> (j <= score_score b)%R).
Proof.
  intros E. rewrite (compute_overlap_fold prop2abs box anchors threshold E).
  eexists. split; [reflexivity|]. cbn [overlap_best].
  pose proof (fold_match_step_best threshold js) as B.
  destruct (fst (fold_left (match_step threshold) (indexed 0 js) (None, [])))
    as [b|] eqn:Eb.
  - split; [exact B|]. cbn [best_of] in B.
    destruct B as [n [Hi [Hn [Hnz [Hmax Hfirst]]]]].
    split; [|split].
    + split; [discriminate|]. intros Z0. apply nth_error_In in Hn.
      apply Z0 in Hn. contradiction.
    + intros ->. cbn in E. injection E as <-. cbn in Eb. discriminate.
    + intros b' [= <-] [j [Hj Pj]].
      apply In_nth_error in Hj as [m Hm].
      assert (Pb : (0 < score_score b)%R).
      { specialize (Hmax m j Hm). lra. }
      split; [exact Pb|]. intros j' Hj'.
      apply In_nth_error in Hj' as [m' Hm'].
      destruct (Req_dec_T j' 0) as [->|NZ]; [lra|]. eauto.
  - split; [exact B|]. cbn [best_of] in B.
    split; [|split].
    + split; [intros _; exact B | reflexivity].
    + reflexivity.
    + discriminate.
Qed.

Lemma compute_overlap_best_witness :
  exists ov : Overlap R,
    compute_overlap prop2abs_example
      (mkBox (mkPoint (1/2) (1/2)) (mkSize (1/2) (1/2)))%R
      [anchor_at (1/10) (1/10) (1/10) (1/10); anchor_at (1/2) (1/2) (1/2) (1/2)]%R
      (1/2)%R = Ok ov /\
    best_of [0; 1]%R (overlap_best ov) /\
    (overlap_best ov = None <-> forall j, In j [0; 1]%R -> j = 0%R) /\
    ([anchor_at (1/10) (1/10) (1/10) (1/10); anchor_at (1/2) (1/2) (1/2) (1/2)]%R = []
     -> overlap_best ov = None) /\
    (forall b, overlap_best ov = Some b ->
               (exists j, In j [0; 1]%R /\ (0 < j)%R) ->
               (0 < score_score b)%R /\
               forall j, In j [0; 1]%R -> (j <= score_score b)%R).
Proof. apply compute_overlap_best. exact overlaps_example. Defined.

(** C4 (as amended).  When the overlap of the box with every anchor is
    defined, [compute_overlap] returns, and [good] lists, in ascending
    anchor-index order, the scores of exactly the anchors whose overlap is
    not zero and strictly exceeds the threshold: it holds no score whose
    overlap is at most the threshold, and for a non-negative threshold it
    holds the score of every anchor whose overlap exceeds the threshold. *)
Theorem compute_overlap_good
    (prop2abs : Point R -> Size R -> Size Z -> params R)
    (box : Box R) (anchors : list (Anchor R)) (threshold : R) (js : list R) :
  overlaps prop2abs box anchors = Ok js ->
  exists ov : Overlap R,
    compute_overlap prop2abs box anchors threshold = Ok ov /\
    overlap_good ov = good_of threshold js /\
    (forall (n : nat) (j : R),
        In (mkScore (Z.of_nat n) j) (overlap_good ov) <->
        nth_error js n = Some j /\ j <> 0%R /\ (threshold < j)%R) /\
    (forall sc, In sc (overlap_good ov) ->
                (threshold < score_score sc)%R /\
                exists n : nat, score_idx sc = Z.of_nat n /\
                                nth_error js n = Some (score_score sc)) /\
    StronglySorted (fun a b => score_idx a < score_idx b) (overlap_good ov) /\
    ((0 <= threshold)%R ->
     forall (n : nat) (j : R),
       nth_error js n = Some j -> (threshold < j)%R ->
       In (mkScore (Z.of_nat n) j) (overlap_good ov)).
Proof.
  intros E. rewrite (compute_overlap_fold prop2abs box anchors threshold E).
  eexists. split; [reflexivity|]. cbn [overlap_good].
  rewrite fold_match_step_good. cbn [app]. fold (good_of threshold js).
  assert (Hin : forall (i : Z) (j : R),
             In (mkScore i j) (good_of threshold js) <->
             exists n : nat, i = Z.of_nat n /\ nth_error js n = Some j /\
                             j <> 0%R /\ (threshold < j)%R).
  { intros i j. unfold good_of. rewrite in_map_iff. split.
    - intros [[i' j'] [Eq Hf]]. cbn [fst snd] in Eq. injection Eq as -> ->.
      apply filter_In in Hf as [Hi Hk]. cbn [snd] in Hk.
      apply andb_true_iff in Hk as [Hz Ht].
      apply indexed_In in Hi as [n [-> Hn]].
      exists n. split; [lia|]. split; [exact Hn|]. split.
      + intros Z0. rewrite feqb_R_true in Hz by exact Z0. discriminate.
      + apply fltb_R_iff. exact Ht.
    - intros [n [-> [Hn [Hz Ht]]]]. exists (Z.of_nat n, j). split; [reflexivity|].
      apply filter_In. split.
      + apply indexed_In. exists n. split; [lia | exact Hn].
      + cbn [snd]. rewrite feqb_R_false by exact Hz.
        rewrite fltb_R_true by exact Ht. reflexivity. }
  split; [reflexivity|]. split; [|split; [|split]].
  - intros n j. rewrite Hin. split.
    + intros [n' [En H']]. apply Nat2Z.inj in En. subst n'. exact H'.
    + intros H'. exists n. split; [reflexivity | exact H'].
  - intros [i j] Hsc. apply Hin in Hsc as [n [-> [Hn [_ Ht]]]].
    cbn [score_score score_idx]. split; [exact Ht|]. exists n. split; [reflexivity | exact Hn].
  - unfold good_of.
    generalize (indexed_sorted js
      (fun nj : Z * R => negb (feqb (snd nj) (fromZ 0)) && fltb threshold (snd nj)) 0).
    generalize (List.filter
      (fun nj : Z * R => negb (feqb (snd nj) (fromZ 0)) && fltb threshold (snd nj))
      (indexed 0 js)).
    intros l S. induction S as [|a l S IH Hall]; cbn [map]; constructor.
    + exact IH.
    + rewrite List.Forall_forall in Hall. apply List.Forall_forall.
      intros sc Hsc. apply in_map_iff in Hsc as [b [<- Hb]].
      cbn [score_idx]. apply Hall. exact Hb.
  - intros T n j Hn Ht. apply Hin. exists n. split; [reflexivity|].
    split; [exact Hn|]. split; [lra | exact Ht].
Qed.

Lemma compute_overlap_good_witness :
  exists ov : Overlap R,
    compute_overlap prop2abs_example
      (mkBox (mkPoint (1/2) (1/2)) (mkSize (1/2) (1/2)))%R
      [anchor_at (1/10) (1/10) (1/10) (1/10); anchor_at (1/2) (1/2) (1/2) (1/2)]%R
      (1/2)%R = Ok ov /\
    overlap_good ov = good_of (1/2)%R [0; 1]%R /\
    (forall (n : nat) (j : R),
        In (mkScore (Z.of_nat n) j) (overlap_good ov) <->
        nth_error [0; 1]%R n = Some j /\ j <> 0%R /\ (1/2 < j)%R) /\
    (forall sc, In sc (overlap_good ov) ->
                (1/2 < score_score sc)%R /\
                exists n : nat, score_idx sc = Z.of_nat n /\
                                nth_error [0; 1]%R n = Some (score_score sc)) /\
    StronglySorted (fun a b => score_idx a < score_idx b) (overlap_good ov) /\
    ((0 <= 1/2)%R ->
     forall (n : nat) (j : R),
       nth_error [0; 1]%R n = Some j -> (1/2 < j)%R ->
       In (mkScore (Z.of_nat n) j) (overlap_good ov)).
Proof. apply compute_overlap_good. exact overlaps_example. Defined.

(** C4, counterexample: with the threshold -1, an anchor away from the box
    has the overlap 0, which exceeds the threshold, and yet [good] is
    empty: the loop skips an anchor of overlap zero before it compares the
    overlap with the threshold.  The same holds on binary64 numbers. *)
Lemma compute_overlap_good_negative_threshold :
  overlaps prop2abs_example
    (mkBox (mkPoint (1/2) (1/2)) (mkSize (1/2) (1/2)))%R
    [anchor_at (1/10) (1/10) (1/10) (1/10)]%R = Ok [0%R] /\
  (-1 < 0)%R /\
  compute_overlap prop2abs_example
    (mkBox (mkPoint (1/2) (1/2)) (mkSize (1/2) (1/2)))%R
    [anchor_at (1/10) (1/10) (1/10) (1/10)]%R (-1)%R
  = Ok (mkOverlap None []) /\
  compute_overlap (F := PrimFloat.float) prop2abs_example
    (mkBox (mkPoint (decimal 5 1) (decimal 5 1)) (mkSize (decimal 5 1) (decimal 5 1)))
    [anchor_at (decimal 1 1) (decimal 1 1) (decimal 1 1) (decimal 1 1)]
    (float_of_Z (-1))
  = Ok (mkOverlap None []).
Proof.
  assert (E : overlaps prop2abs_example
                (mkBox (mkPoint (1/2) (1/2)) (mkSize (1/2) (1/2)))%R
                [anchor_at (1/10) (1/10) (1/10) (1/10)]%R = Ok [0%R]).
  { unfold overlaps, prop2abs_example, anchor_at.
    cbn [mapM box_center box_size anchor_center anchor_size point_x point_y
         size_w size_h fromZ PyNum_R fsub fadd fmul fquot].
    rewrite jaccard_overlap_guard by lra. reflexivity. }
  split; [exact E|]. split; [lra|]. split; [|vm_compute; reflexivity].
  rewrite (compute_overlap_fold prop2abs_example _ _ (-1)%R E).
  cbn [indexed fold_left match_step].
  rewrite feqb_R_true by reflexivity. reflexivity.
Qed.

(** C8 (as amended).  [jaccard_overlap] does not validate its arguments:
    whatever the coordinates, well-formed or not, it returns 0 when one of
    the four guards holds, and otherwise the quotient of the intersection
    by the union, raising [ZeroDivisionError] when the union is zero; so
    it returns a number or raises [ZeroDivisionError], and never raises
    the [ValueError] of a domain error. *)
Theorem jaccard_overlap_unvalidated (p1 p2 : params R) :
  (~ overlapping p1 p2 -> jaccard_overlap p1 p2 = Ok 0%R) /\
  (overlapping p1 p2 -> union_area p1 p2 <> 0%R ->
   jaccard_overlap p1 p2 = Ok (intersection_area p1 p2 / union_area p1 p2)%R) /\
  (overlapping p1 p2 -> union_area p1 p2 = 0%R ->
   jaccard_overlap p1 p2 = Raise ZeroDivisionError) /\
  ((exists v : R, jaccard_overlap p1 p2 = Ok v) \/
   jaccard_overlap p1 p2 = Raise ZeroDivisionError) /\
  jaccard_overlap p1 p2 <> Raise ValueError.
Proof.
  destruct p1 as [[[xmin1 xmax1] ymin1] ymax1].
  destruct p2 as [[[xmin2 xmax2] ymin2] ymax2].
  unfold overlapping, union_area, intersection_area, area.
  split; [|split; [|split]].
  - intros N. apply jaccard_overlap_guard.
    destruct (Rle_dec xmax2 xmin1); [lra|]. destruct (Rle_dec xmax1 xmin2); [lra|].
    destruct (Rle_dec ymax2 ymin1); [lra|]. destruct (Rle_dec ymax1 ymin2); [lra|].
    exfalso. apply N. lra.
  - intros [G1 [G2 [G3 G4]]] U.
    rewrite (jaccard_overlap_quotient G1 G2 G3 G4). apply pydiv_R. exact U.
  - intros [G1 [G2 [G3 G4]]] U.
    rewrite (jaccard_overlap_quotient G1 G2 G3 G4). apply pydiv_R_zero. exact U.
  - unfold jaccard_overlap, pydiv.
    repeat match goal with
           | |- context [if ?c then _ else _] => destruct c
           end;
      (split; [first [left; eexists; reflexivity | right; reflexivity] | discriminate]).
Qed.

(** C8, counterexample: the first box has [xmax < xmin]; the result is the
    number -1/5, on the reals as on binary64 numbers. *)
Lemma jaccard_overlap_malformed :
  ~ well_formed (5, 3, 0, 10)%R /\
  jaccard_overlap (5, 3, 0, 10)%R (0, 10, 0, 10)%R = Ok (- (1 / 5))%R /\
  jaccard_overlap (F := PrimFloat.float)
    (float_of_Z 5, float_of_Z 3, float_of_Z 0, float_of_Z 10)
    (float_of_Z 0, float_of_Z 10, float_of_Z 0, float_of_Z 10)
  = Ok (PrimFloat.opp (decimal 2 1)).
Proof.
  split; [unfold well_formed; lra|]. split; [|vm_compute; reflexivity].
  apply jaccard_overlap_value; try lra;
    unfold Rmin, Rmax;
    repeat match goal with
           | |- context [Rle_dec ?a ?b] => destruct (Rle_dec a b); try lra
           end.
Qed.

(** * Loops *)

Lemma bind_Ok {X Y : Type} (c : result X) (k : X -> result Y) (y : Y) :
  bind c k = Ok y <-> exists x, c = Ok x /\ k x = Ok y.
Proof.
  destruct c as [x|e]; cbn [bind]; split.
  - intros E. exists x. split; [reflexivity | exact E].
  - intros [x' [[= <-] E]]. exact E.
  - discriminate.
  - intros [x' [E _]]. discriminate.
Qed.

Lemma mapM_Ok {A B : Type} (f : A -> result B) (l : list A) :
  forall bs, mapM f l = Ok bs <-> Forall2 (fun a b => f a = Ok b) l bs.
Proof.
  induction l as [|a l IH]; intros bs; cbn [mapM].
  - split; [intros [= <-]; constructor | intros H; inversion H; reflexivity].
  - rewrite bind_Ok. split.
    + intros [b [Eb E]]. apply bind_Ok in E as [bs' [Ebs [= <-]]].
      constructor; [exact Eb | apply IH; exact Ebs].
    + intros H. inversion H as [|a' b l' bs' Eb Ebs]; subst.
      exists b. split; [exact Eb|]. apply IH in Ebs. rewrite Ebs. reflexivity.
Qed.

Lemma mapM_ext {A B : Type} (f g : A -> result B) (l : list A) :
  (forall a, In a l -> f a = g a) -> mapM f l = mapM g l.
Proof.
  induction l as [|a l IH]; intros E; cbn [mapM]; [reflexivity|].
  rewrite (E a) by (left; reflexivity).
  rewrite IH by (intros; apply E; right; assumption). reflexivity.
Qed.

Lemma mapM_total {A B : Type} (f : A -> result B) (g : A -> B) (l : list A) :
  (forall a, In a l -> f a = Ok (g a)) -> mapM f l = Ok (map g l).
Proof.
  induction l as [|a l IH]; intros E; cbn [mapM map]; [reflexivity|].
  rewrite (E a) by (left; reflexivity).
  rewrite IH by (intros; apply E; right; assumption). reflexivity.
Qed.

Lemma mapM_length {A B : Type} (f : A -> result B) (l : list A) (bs : list B) :
  mapM f l = Ok bs -> length bs = length l.
Proof.
  intros E. apply mapM_Ok in E. induction E; cbn [length]; congruence.
Qed.

Lemma for_append_ext {A B : Type} (l : list A) (f g : A -> result (list B)) :
  (forall a, In a l -> f a = g a) -> for_append l f = for_append l g.
Proof. intros E. unfold for_append. rewrite (mapM_ext f g l E). reflexivity. Qed.

Lemma for_append_In {A B : Type} (l : list A) (body : A -> result (list B)) (bs : list B) :
  for_append l body = Ok bs ->
  forall b, In b bs <-> exists a bs', In a l /\ body a = Ok bs' /\ In b bs'.
Proof.
  unfold for_append. intros E. apply bind_Ok in E as [ls [E [= <-]]].
  apply mapM_Ok in E. intros b. rewrite in_concat. split.
  - intros [bs' [Hbs' Hb]]. induction E as [|a bs0 l ls Ea E IH].
    + contradiction.
    + destruct Hbs' as [->|Hbs'].
      * exists a, bs'. split; [left; reflexivity|]. split; assumption.
      * destruct (IH Hbs') as [a' [bs'' [Ha' H']]].
        exists a', bs''. split; [right; exact Ha' | exact H'].
  - intros [a [bs' [Ha [Ea Hb]]]]. exists bs'. split; [|exact Hb].
    induction E as [|a0 bs0 l ls Ea0 E IH]; [contradiction|].
    destruct Ha as [->|Ha].
    + left. congruence.
    + right. apply IH. exact Ha.
Qed.


Lemma for_append_body {A B : Type} (l : list A) (body : A -> result (list B))
    (bs : list B) :
  for_append l body = Ok bs ->
  forall a, In a l -> exists bs', body a = Ok bs'.
Proof.
  unfold for_append. intros E. apply bind_Ok in E as [ls [E _]].
  apply mapM_Ok in E. induction E as [|a0 bs0 l ls Ea0 E IH]; intros a Ha.
  - contradiction.
  - destruct Ha as [->|Ha]; [exists bs0; exact Ea0 | apply IH; exact Ha].
Qed.

Section RangeFacts.

Lemma range_In (a b i : Z) : In i (range a b) <-> a <= i < b.
Proof.
  unfold range. rewrite in_map_iff. split.
  - intros [n [<- Hn]]. apply in_seq in Hn. lia.
  - intros Hi. exists (Z.to_nat (i - a)). split; [lia|]. apply in_seq. lia.
Qed.

Lemma range_length (a b : Z) : length (range a b) = Z.to_nat (b - a).
Proof. unfold range. rewrite length_map, length_seq. reflexivity. Qed.

Lemma list_get_Ok {A : Type} (l : list A) (i : Z) (a : A) :
  0 <= i -> (list_get l i = Ok a <-> nth_error l (Z.to_nat i) = Some a).
Proof.
  intros Hi. unfold list_get.
  destruct (Z.ltb_spec i 0) as [L|_]; [lia|].
  destruct (Z.ltb_spec i 0) as [L|_]; [lia|]. cbn [orb].
  destruct (Z.leb_spec (Z.of_nat (length l)) i) as [L|L].
  - split; [discriminate|]. intros E.
    assert (Z.to_nat i < length l)%nat by (apply nth_error_Some; congruence). lia.
  - destruct (nth_error l (Z.to_nat i)); split; congruence.
Qed.

Lemma list_get_in_range {A : Type} (l : list A) (i : Z) :
  0 <= i < Z.of_nat (length l) -> exists a, list_get l i = Ok a.
Proof.
  intros Hi. destruct (nth_error l (Z.to_nat i)) as [a|] eqn:E.
  - exists a. apply list_get_Ok; [lia | exact E].
  - apply nth_error_None in E. lia.
Qed.

Lemma list_get_map {A B : Type} (f : A -> B) (l : list A) (i : Z) :
  list_get (map f l) i = (a <- list_get l i ;; Ok (f a)).
Proof.
  unfold list_get. rewrite length_map.
  destruct ((_ <? 0) || _); [reflexivity|].
  rewrite nth_error_map. destruct (nth_error l _); reflexivity.
Qed.
End RangeFacts.

(** * Anchor generation: structure of the result *)

Section AnchorStructure.
Context {F : Type} `{PyNum F}.

Lemma anchors_of_map_In (preset : SSDPreset) (scales : list F)
    (box_sizes : dict F (list (F * F))) (k : Z) (l : list (Anchor F)) :
  0 <= k < Z.of_nat (length scales) ->
  anchors_of_map preset scales box_sizes k = Ok l ->
  forall a, In a l <-> anchor_map a = k /\ is_anchor preset scales box_sizes a.
Proof.
  intros Hk E a. unfold anchors_of_map in E.
  apply bind_Ok in E as [s [Es E]]. apply bind_Ok in E as [msz [Em E]].
  rewrite (for_append_In _ _ E). split.
  - intros [i [li [Hi [Ei Ha]]]]. apply range_In in Hi.
    apply bind_Ok in Ei as [x [Ex Ei]].
    rewrite (for_append_In _ _ Ei) in Ha.
    destruct Ha as [j [lj [Hj [Ej Ha]]]]. apply range_In in Hj.
    apply bind_Ok in Ej as [y [Ey Ej]]. apply bind_Ok in Ej as [sizes [Ed [= <-]]].
    apply in_map_iff in Ha as [[w h] [<- Hsz]].
    cbn [anchor_map]. split; [reflexivity|].
    exists msz, sizes. cbn [anchor_map anchor_scale anchor_x anchor_y anchor_center
      anchor_size point_x point_y size_w size_h fst snd].
    repeat split; try assumption; lia.
  - intros [<- [msz' [sizes [_ [Es' [Em' [Hi [Hj [Ex [Ey [Ed Hsz]]]]]]]]]]].
    assert (msz' = msz) by congruence. subst msz'.
    assert (s = anchor_scale a) by congruence. subst s.
    destruct (for_append_body _ _ E (anchor_y a)) as [li Ei];
      [apply range_In; lia|].
    exists (anchor_y a), li. split; [apply range_In; lia|]. split; [exact Ei|].
    apply bind_Ok in Ei as [x [Ex' Ei]].
    destruct (for_append_body _ _ Ei (anchor_x a)) as [lj Ej];
      [apply range_In; lia|].
    apply (for_append_In _ _ Ei).
    exists (anchor_x a), lj. split; [apply range_In; lia|]. split; [exact Ej|].
    apply bind_Ok in Ej as [y [Ey' Ej]]. apply bind_Ok in Ej as [sizes' [Ed' [= <-]]].
    assert (sizes' = sizes) by congruence. subst sizes'.
    assert (x = point_x (anchor_center a)) by congruence.
    assert (y = point_y (anchor_center a)) by congruence. subst x y.
    apply in_map_iff. exists (size_w (anchor_size a), size_h (anchor_size a)).
    split; [|exact Hsz].
    destruct a as [[cx cy] [w h] ax ay sc mp]. reflexivity.
Qed.

(** The anchors of a preset are the anchors of its feature maps. *)
Lemma get_anchors_for_preset_In (preset : SSDPreset) (anchors : list (Anchor F)) :
  get_anchors_for_preset preset = Ok anchors ->
  exists (scales ratios : list F) (box_sizes : dict F (list (F * F))),
    compute_scales preset = Ok scales /\
    aspect_ratios = Ok ratios /\
    compute_box_sizes scales ratios = Ok box_sizes /\
    forall a, In a anchors <-> is_anchor preset scales box_sizes a.
Proof.
  unfold get_anchors_for_preset. intros E.
  apply bind_Ok in E as [scales [Es E]]. apply bind_Ok in E as [ratios [Er E]].
  apply bind_Ok in E as [box_sizes [Eb E]].
  exists scales, ratios, box_sizes. repeat (split; [assumption|]).
  intros a. rewrite (for_append_In _ _ E). split.
  - intros [k [l [Hk [El Ha]]]]. apply range_In in Hk.
    assert (Hk' : 0 <= k < Z.of_nat (length scales)) by lia.
    apply (anchors_of_map_In preset scales box_sizes Hk' El). exact Ha.
  - intros Ha. assert (Hk : 0 <= anchor_map a < Z.of_nat (length scales))
      by (destruct Ha as [? [? [? _]]]; assumption).
    destruct (for_append_body _ _ E (anchor_map a)) as [l El];
      [apply range_In; lia|].
    exists (anchor_map a), l. split; [apply range_In; lia|]. split; [exact El|].
    apply (anchors_of_map_In preset scales box_sizes Hk El). split; [reflexivity | exact Ha].
Qed.
End AnchorStructure.

Section SquareMaps.
Context {F : Type} `{PyNum F}.

(** Only the number of maps and the widths of the maps are read. *)
Lemma get_anchors_for_preset_widths (preset preset' : SSDPreset) :
  num_maps preset = num_maps preset' ->
  map (@size_w Z) (map_sizes preset) = map (@size_w Z) (map_sizes preset') ->
  get_anchors_for_preset (F := F) preset = get_anchors_for_preset preset'.
Proof.
  intros En Ew. unfold get_anchors_for_preset, compute_scales. rewrite En.
  destruct (mapM _ (range 1 (num_maps preset' + 1))) as [scales|e];
    cbn [bind]; [|reflexivity].
  destruct aspect_ratios as [ratios|e]; cbn [bind]; [|reflexivity].
  destruct (compute_box_sizes scales ratios) as [box_sizes|e];
    cbn [bind]; [|reflexivity].
  apply for_append_ext. intros k _. unfold anchors_of_map.
  destruct (list_get scales k) as [s|e]; cbn [bind]; [|reflexivity].
  assert (Eg : (m <- list_get (map_sizes preset) k ;; Ok (size_w m))
               = (m <- list_get (map_sizes preset') k ;; Ok (size_w m))).
  { rewrite <- !list_get_map. rewrite Ew. reflexivity. }
  destruct (list_get (map_sizes preset) k) as [m|e],
           (list_get (map_sizes preset') k) as [m'|e'];
    cbn [bind] in *; try congruence.
  injection Eg as ->. reflexivity.
Qed.
End SquareMaps.

(** * Box sizes *)

Section BoxSizes.
Context {F : Type} `{PyNum F}.

Lemma aspect_ratios_length (ratios : list F) :
  aspect_ratios = Ok ratios -> length ratios = 5%nat.
Proof.
  unfold aspect_ratios. intros E. apply bind_Ok in E as [third [_ E]].
  apply mapM_length in E. exact E.
Qed.

Lemma box_sizes_of_scale_length (scales ratios : list F) (i : Z) (s : F)
    (sizes : list (F * F)) :
  box_sizes_of_scale scales ratios i s = Ok sizes ->
  length sizes
  = (length ratios + if (i <? Z.of_nat (length scales) - 1)%Z then 1 else 0)%nat.
Proof.
  unfold box_sizes_of_scale. intros E. apply bind_Ok in E as [l [El E]].
  apply mapM_length in El.
  destruct (i <? Z.of_nat (length scales) - 1).
  - apply bind_Ok in E as [s_next [_ E]]. apply bind_Ok in E as [s_prime [_ [= <-]]].
    rewrite length_app. cbn [length]. lia.
  - injection E as <-. lia.
Qed.

Lemma dict_get_In {V : Type} (d : dict F V) (k : F) (v : V) :
  dict_get d k = Ok v -> exists k', In (k', v) d.
Proof.
  induction d as [|[k0 v0] d IH]; cbn [dict_get]; [discriminate|].
  destruct (feqb k0 k).
  - intros [= <-]. exists k0. left. reflexivity.
  - intros E. destruct (IH E) as [k' Hk']. exists k'. right. exact Hk'.
Qed.

Lemma dict_set_In {V : Type} (d : dict F V) (k : F) (v : V) :
  forall k' v', In (k', v') (dict_set d k v) -> v' = v \/ In (k', v') d.
Proof.
  induction d as [|[k0 v0] d IH]; intros k' v'; cbn [dict_set].
  - intros [[= <- <-]|[]]. left. reflexivity.
  - destruct (feqb k0 k); cbn [In].
    + intros [[= <- <-]|Hin]; [left; reflexivity | right; right; exact Hin].
    + intros [E|Hin]; [right; left; exact E|].
      destruct (IH _ _ Hin) as [->|Hin']; [left; reflexivity | right; right; exact Hin'].
Qed.

Lemma foldM_invariant {A S : Type} (P : S -> Prop) (f : S -> A -> result S)
    (l : list A) :
  (forall s a s', In a l -> P s -> f s a = Ok s' -> P s') ->
  forall s s', P s -> foldM f l s = Ok s' -> P s'.
Proof.
  induction l as [|a l IH]; intros Hf s s' Ps; cbn [foldM].
  - intros [= <-]. exact Ps.
  - intros E. apply bind_Ok in E as [s1 [E1 E]].
    apply (IH (fun s0 a0 s0' Ha0 => Hf s0 a0 s0' (or_intror Ha0)) s1 s');
      [|exact E].
    apply (Hf s a s1); [left; reflexivity | exact Ps | exact E1].
Qed.

(** Every list of the dictionary holds the five sizes of the aspect
    ratios, and at most one more. *)
Lemma compute_box_sizes_length (scales ratios : list F)
    (box_sizes : dict F (list (F * F))) (s : F) (sizes : list (F * F)) :
  compute_box_sizes scales ratios = Ok box_sizes ->
  dict_get box_sizes s = Ok sizes ->
  (length ratios <= length sizes <= length ratios + 1)%nat.
Proof.
  intros E Eg. apply dict_get_In in Eg as [k' Hin].
  pose proof (@foldM_invariant Z (dict F (list (F * F)))
                (fun d => forall k' sizes, In (k', sizes) d ->
                   (length ratios <= length sizes <= length ratios + 1)%nat))
    as Hinv.
  unfold compute_box_sizes in E.
  eapply Hinv; [| |exact E|exact Hin].
  - intros d i d' _ Pd Ed k1 sizes1 Hin1.
    apply bind_Ok in Ed as [s0 [_ Ed]]. apply bind_Ok in Ed as [l [El [= <-]]].
    apply dict_set_In in Hin1 as [->|Hin1]; [|eauto].
    apply box_sizes_of_scale_length in El. rewrite El.
    destruct (i <? _); lia.
  - intros k1 sizes1 [].
Qed.
End BoxSizes.

Lemma compute_scales_length {F : Type} `{PyNum F} (preset : SSDPreset)
    (scales : list F) :
  compute_scales preset = Ok scales ->
  length scales = Z.to_nat (num_maps preset).
Proof.
  unfold compute_scales. intros E. apply mapM_length in E.
  rewrite E, range_length. f_equal. lia.
Qed.

(** The cells of feature map [k] that carry an anchor are those of the
    grid [0, w) x [0, w), for [w] the width of [map_sizes[k]]. *)
Lemma get_anchors_for_preset_grid {F : Type} `{PyNum F} (preset : SSDPreset)
    (anchors : list (Anchor F)) :
  get_anchors_for_preset preset = Ok anchors ->
  forall (k : Z) (map_size : Size Z),
    0 <= k < num_maps preset ->
    list_get (map_sizes preset) k = Ok map_size ->
    forall i j : Z,
      (exists a, In a anchors /\ anchor_map a = k /\
                 anchor_y a = i /\ anchor_x a = j) <->
      (0 <= i < size_w map_size /\ 0 <= j < size_w map_size).
Proof.
  intros E k msz Hk Em i j. split.
  - intros [a [Ha [<- [<- <-]]]].
    destruct (get_anchors_for_preset_In _ E) as [scales [ratios [bs [_ [_ [_ Hin]]]]]].
    apply Hin in Ha. destruct Ha as [msz' [sizes [_ [_ [Em' [Hi [Hj _]]]]]]].
    assert (msz' = msz) by congruence. subst msz'. split; assumption.
  - intros [Hi Hj].
    destruct (get_anchors_for_preset_In _ E) as [scales [ratios [bs [Es [Er [Eb Hin]]]]]].
    pose proof (compute_scales_length _ Es) as Ls.
    unfold get_anchors_for_preset in E.
    rewrite Es in E; cbn [bind] in E. rewrite Er in E; cbn [bind] in E.
    rewrite Eb in E; cbn [bind] in E.
    destruct (for_append_body _ _ E k) as [l El]; [apply range_In; lia|].
    unfold anchors_of_map in El.
    apply bind_Ok in El as [s [Esk El]]. apply bind_Ok in El as [msz' [Em' El]].
    assert (msz' = msz) by congruence. subst msz'.
    destruct (for_append_body _ _ El i) as [li Ei]; [apply range_In; lia|].
    apply bind_Ok in Ei as [x [Ex Ei]].
    destruct (for_append_body _ _ Ei j) as [lj Ej]; [apply range_In; lia|].
    apply bind_Ok in Ej as [y [Ey Ej]]. apply bind_Ok in Ej as [sizes [Ed _]].
    pose proof (compute_box_sizes_length _ _ _ Eb Ed) as Lsz.
    rewrite (aspect_ratios_length Er) in Lsz.
    destruct sizes as [|[w h] sizes]; [cbn in Lsz; lia|].
    exists (mkAnchor (mkPoint x y) (mkSize w h) j i s k).
    cbn [anchor_map anchor_x anchor_y]. repeat split.
    apply Hin. exists msz, ((w, h) :: sizes).
    cbn [anchor_map anchor_scale anchor_x anchor_y anchor_center anchor_size
         point_x point_y size_w size_h].
    repeat split; try assumption; try lia. left. reflexivity.
Qed.

(** C10.  [get_anchors_for_preset] reads the width of a map size and never
    its height: the preset with every height replaced by the width has the
    same anchors (or raises the same exception); and the cells of feature
    map [k] that carry an anchor are those of the grid [0, w) x [0, w),
    for [w] the width of [map_sizes[k]]. *)
Theorem get_anchors_for_preset_square {F : Type} `{PyNum F} (preset : SSDPreset) :
  get_anchors_for_preset (F := F) (with_square_maps preset)
  = get_anchors_for_preset preset /\
  forall anchors : list (Anchor F),
    get_anchors_for_preset preset = Ok anchors ->
    forall (k : Z) (map_size : Size Z),
      0 <= k < num_maps preset ->
      list_get (map_sizes preset) k = Ok map_size ->
      forall i j : Z,
        (exists a, In a anchors /\ anchor_map a = k /\
                   anchor_y a = i /\ anchor_x a = j) <->
        (0 <= i < size_w map_size /\ 0 <= j < size_w map_size).
Proof.
  split.
  - apply get_anchors_for_preset_widths; [reflexivity|].
    cbn [with_square_maps map_sizes]. rewrite map_map. reflexivity.
  - intros anchors E. apply get_anchors_for_preset_grid. exact E.
Qed.

Lemma get_anchors_for_preset_square_witness :
  exists anchors : list (Anchor PrimFloat.float),
    get_anchors_for_preset two_maps = Ok anchors /\
    get_anchors_for_preset (with_square_maps two_maps) = Ok anchors /\
    Z.of_nat (length anchors) = 29 /\
    forall i j : Z,
      (exists a, In a anchors /\ anchor_map a = 0 /\
                 anchor_y a = i /\ anchor_x a = j) <->
      (0 <= i < 2 /\ 0 <= j < 2).
Proof.
  destruct (get_anchors_for_preset (F := PrimFloat.float) two_maps)
    as [anchors|e] eqn:E; [|vm_compute in E; discriminate].
  exists anchors. split; [reflexivity|].
  pose proof (get_anchors_for_preset_square (F := PrimFloat.float) two_maps)
    as [Esq Hgrid].
  split; [rewrite Esq; exact E|]. split.
  - vm_compute in E. injection E as <-. reflexivity.
  - apply (Hgrid anchors E 0 (mkSize 2 3)); [cbn; lia | reflexivity].
Defined.

(** * Anchor generation: the cells and the number of anchors *)

Lemma for_append_map {A B C : Type} (l : list A) (body : A -> result (list B))
    (f : B -> C) (g : A -> list C) (bs : list B) :
  for_append l body = Ok bs ->
  (forall a bs', In a l -> body a = Ok bs' -> map f bs' = g a) ->
  map f bs = flat_map g l.
Proof.
  unfold for_append. intros E Hg. apply bind_Ok in E as [ls [E [= <-]]].
  apply mapM_Ok in E. induction E as [|a bs0 l ls Ea E IH]; [reflexivity|].
  cbn [concat flat_map]. rewrite map_app. f_equal.
  - apply Hg; [left; reflexivity | exact Ea].
  - apply IH. intros a' bs' Ha' Eb'. apply Hg; [right; exact Ha' | exact Eb'].
Qed.

Lemma flat_map_ext_in {A B : Type} (f g : A -> list B) (l : list A) :
  (forall a, In a l -> f a = g a) -> flat_map f l = flat_map g l.
Proof.
  induction l as [|a l IH]; intros E; cbn [flat_map]; [reflexivity|].
  rewrite (E a) by (left; reflexivity).
  rewrite IH by (intros; apply E; right; assumption). reflexivity.
Qed.

Lemma map_const_repeat {A B : Type} (b : B) (l : list A) :
  map (fun _ => b) l = repeat b (length l).
Proof. induction l as [|a l IH]; cbn; [reflexivity | rewrite IH; reflexivity]. Qed.

Section Cells.
Context {F : Type} `{PyNum F}.

Lemma anchors_of_map_cells (preset : SSDPreset) (scales : list F)
    (box_sizes : dict F (list (F * F))) (k : Z) (l : list (Anchor F)) (s : F) :
  anchors_of_map preset scales box_sizes k = Ok l ->
  list_get scales k = Ok s ->
  map cell l
  = cells_of_map k (grid_size preset k)
      (match dict_get box_sizes s with
       | Ok sizes => length sizes
       | Raise _ => 0%nat
       end).
Proof.
  intros E Es. unfold anchors_of_map in E. rewrite Es in E. cbn [bind] in E.
  unfold grid_size. destruct (list_get (map_sizes preset) k) as [msz|e];
    cbn [bind] in E; [|discriminate].
  unfold cells_of_map. apply (for_append_map _ _ _ _ E).
  intros i li _ Ei. apply bind_Ok in Ei as [x [_ Ei]].
  apply (for_append_map _ _ _ _ Ei).
  intros j lj _ Ej. apply bind_Ok in Ej as [y [_ Ej]].
  apply bind_Ok in Ej as [sizes [Ed [= <-]]]. rewrite Ed.
  rewrite map_map. unfold cell. cbn [anchor_map anchor_x anchor_y].
  apply map_const_repeat.
Qed.

Lemma get_anchors_for_preset_cells (preset : SSDPreset) (anchors : list (Anchor F)) :
  get_anchors_for_preset preset = Ok anchors ->
  exists (scales ratios : list F) (box_sizes : dict F (list (F * F))),
    compute_scales preset = Ok scales /\
    aspect_ratios = Ok ratios /\
    compute_box_sizes scales ratios = Ok box_sizes /\
    map cell anchors
    = flat_map (fun k => cells_of_map k (grid_size preset k)
                           (shapes_of_map scales box_sizes k))
               (range 0 (num_maps preset)).
Proof.
  intros E. unfold get_anchors_for_preset in E.
  apply bind_Ok in E as [scales [Es E]]. apply bind_Ok in E as [ratios [Er E]].
  apply bind_Ok in E as [box_sizes [Eb E]].
  exists scales, ratios, box_sizes. repeat (split; [assumption|]).
  pose proof (compute_scales_length _ Es) as Ls.
  assert (Er' : range 0 (Z.of_nat (length scales)) = range 0 (num_maps preset)).
  { unfold range. rewrite Ls. do 2 f_equal. lia. }
  rewrite Er' in E. apply (for_append_map _ _ _ _ E).
  intros k l Hk El. apply range_In in Hk. unfold shapes_of_map.
  destruct (@list_get_in_range _ scales k) as [s Esk]; [lia|].
  rewrite Esk. cbn [bind].
  apply (anchors_of_map_cells _ _ _ _ El Esk).
Qed.
End Cells.

Lemma mapM_exists {A B : Type} (f : A -> result B) (l : list A) :
  (forall a, In a l -> exists b, f a = Ok b) -> exists bs, mapM f l = Ok bs.
Proof.
  induction l as [|a l IH]; intros E; cbn [mapM]; [eexists; reflexivity|].
  destruct (E a) as [b Eb]; [left; reflexivity|].
  destruct IH as [bs Ebs]; [intros; apply E; right; assumption|].
  exists (b :: bs). rewrite Eb, Ebs. reflexivity.
Qed.

Lemma for_append_exists {A B : Type} (l : list A) (body : A -> result (list B)) :
  (forall a, In a l -> exists bs, body a = Ok bs) ->
  exists bs, for_append l body = Ok bs.
Proof.
  intros E. destruct (mapM_exists body l E) as [ls Els].
  exists (concat ls). unfold for_append. rewrite Els. reflexivity.
Qed.

Lemma foldM_app {A S : Type} (f : S -> A -> result S) (l l' : list A) :
  forall s, foldM f (l ++ l') s = (s' <- foldM f l s ;; foldM f l' s').
Proof.
  induction l as [|a l IH]; intros s; cbn [app foldM bind]; [reflexivity|].
  destruct (f s a) as [s1|e]; cbn [bind]; [apply IH | reflexivity].
Qed.

Lemma range_succ (n : nat) :
  range 0 (Z.of_nat (S n)) = range 0 (Z.of_nat n) ++ [Z.of_nat n].
Proof.
  unfold range. rewrite !Z.sub_0_r, !Nat2Z.id, seq_S, map_app. reflexivity.
Qed.

(** * Anchor generation on the reals *)

Section RealAnchors.
Local Open Scope R_scope.

Lemma compute_scales_R (preset : SSDPreset) :
  num_maps preset <> 1%Z ->
  compute_scales preset
  = Ok (map (scale_of (num_maps preset)) (range 1 (num_maps preset + 1))).
Proof.
  intros HK. unfold compute_scales. apply mapM_total. intros k _.
  rewrite pydiv_R; [reflexivity|]. cbn [fromZ PyNum_R]. apply not_0_IZR. lia.
Qed.

Lemma compute_scales_R_one (preset : SSDPreset) :
  num_maps preset = 1%Z -> compute_scales (F := R) preset = Raise ZeroDivisionError.
Proof.
  intros HK. unfold compute_scales. rewrite HK. cbn [range Z.add Z.sub Z.to_nat
    Pos.add Pos.succ Z.pos_sub Pos.to_nat Pos.iter_op seq map mapM Z.of_nat].
  cbn. rewrite pydiv_R_zero by reflexivity. reflexivity.
Qed.

Lemma scale_of_increasing (K k k' : Z) :
  (2 <= K)%Z -> (k < k')%Z -> scale_of K k < scale_of K k'.
Proof.
  intros HK Hk. unfold scale_of.
  assert (D : 0 < IZR (K - 1)) by (apply IZR_lt; lia).
  assert (Q : 0 < (9 / 10 - 2 / 10) / IZR (K - 1))
    by (apply Rdiv_lt_0_compat; lra).
  assert (L : IZR (k - 1) < IZR (k' - 1)) by (apply IZR_lt; lia).
  apply Rplus_lt_compat_l. apply Rmult_lt_compat_l; assumption.
Qed.

Lemma scale_of_positive (K k : Z) : (2 <= K)%Z -> (1 <= k)%Z -> 0 < scale_of K k.
Proof.
  intros HK Hk. unfold scale_of.
  assert (D : 0 < IZR (K - 1)) by (apply IZR_lt; lia).
  assert (Q : 0 < (9 / 10 - 2 / 10) / IZR (K - 1))
    by (apply Rdiv_lt_0_compat; lra).
  assert (L : 0 <= IZR (k - 1)) by (apply IZR_le; lia).
  assert (0 <= (9 / 10 - 2 / 10) / IZR (K - 1) * IZR (k - 1))
    by (apply Rmult_le_pos; lra).
  lra.
Qed.

Lemma aspect_ratios_R :
  aspect_ratios = Ok [sqrt 1; sqrt 2; sqrt 3; sqrt (5 / 10); sqrt (1 / 3)].
Proof.
  unfold aspect_ratios. rewrite pydiv_R by (cbn; lra). cbn [bind mapM].
  change (decimal 5 1) with (5 / 10). cbn [fromZ PyNum_R].
  rewrite !pysqrt_R by lra. reflexivity.
Qed.

Lemma aspect_ratios_R_nonzero :
  Forall (fun r => r <> 0) [sqrt 1; sqrt 2; sqrt 3; sqrt (5 / 10); sqrt (1 / 3)].
Proof.
  repeat constructor;
    (apply Rgt_not_eq; apply Rlt_gt; apply sqrt_lt_R0; lra).
Qed.

Lemma dict_get_set_R {V : Type} (d : dict R V) (k k' : R) (v : V) :
  dict_get (dict_set d k v) k'
  = if Req_dec_T k k' then Ok v else dict_get d k'.
Proof.
  induction d as [|[k0 v0] d IH]; cbn [dict_set dict_get].
  - cbn. destruct (Req_dec_T k k'); reflexivity.
  - destruct (Req_dec_T k0 k) as [->|N0].
    + rewrite feqb_R_true by reflexivity. cbn [dict_get].
      cbn [feqb PyNum_R]. destruct (Req_dec_T k k'); reflexivity.
    + rewrite feqb_R_false by exact N0. cbn [dict_get]. rewrite IH.
      cbn [feqb PyNum_R].
      destruct (Req_dec_T k0 k'), (Req_dec_T k k'); try reflexivity. congruence.
Qed.
End RealAnchors.

Section RealBoxSizes.
Local Open Scope R_scope.
Variables scales ratios : list R.
Hypothesis scales_positive : Forall (fun s => 0 < s) scales.
Hypothesis ratios_nonzero : Forall (fun r => r <> 0) ratios.
Hypothesis scales_distinct : distinct scales.

Lemma list_get_nth_error {A : Type} (l : list A) (i : nat) (a : A) :
  nth_error l i = Some a -> list_get l (Z.of_nat i) = Ok a.
Proof. intros E. apply list_get_Ok; [lia|]. rewrite Nat2Z.id. exact E. Qed.

Lemma box_sizes_of_scale_R (i : nat) (s : R) :
  nth_error scales i = Some s ->
  exists sizes, box_sizes_of_scale scales ratios (Z.of_nat i) s = Ok sizes.
Proof using scales_positive ratios_nonzero.
  intros Es. unfold box_sizes_of_scale.
  rewrite (mapM_total _ (fun r => (s * r, s / r)) ratios).
  2:{ intros r Hr. rewrite List.Forall_forall in ratios_nonzero.
      rewrite pydiv_R by (apply ratios_nonzero; exact Hr). reflexivity. }
  cbn [bind]. destruct (Z.ltb_spec (Z.of_nat i) (Z.of_nat (length scales) - 1)) as [L|L].
  - destruct (@list_get_in_range _ scales (Z.of_nat i + 1)) as [s' Es']; [lia|].
    rewrite Es'. cbn [bind].
    rewrite List.Forall_forall in scales_positive.
    assert (Ps : 0 < s) by (apply scales_positive; eapply nth_error_In; exact Es).
    assert (Ps' : 0 < s').
    { apply list_get_Ok in Es'; [|lia]. apply scales_positive.
      eapply nth_error_In; exact Es'. }
    rewrite pysqrt_R by (cbn; apply Rmult_le_pos; lra).
    eexists. reflexivity.
  - eexists. reflexivity.
Qed.

Lemma compute_box_sizes_prefix_R (m : nat) :
  (m <= length scales)%nat ->
  exists box_sizes,
    foldM (fun box_sizes i =>
             s <- list_get scales i ;;
             sizes <- box_sizes_of_scale scales ratios i s ;;
             Ok (dict_set box_sizes s sizes))
          (range 0 (Z.of_nat m)) [] = Ok box_sizes /\
    forall (i : nat) (s : R),
      (i < m)%nat -> nth_error scales i = Some s ->
      exists sizes,
        dict_get box_sizes s = Ok sizes /\
        length sizes
        = (length ratios
           + if (Z.of_nat i <? Z.of_nat (length scales) - 1)%Z then 1 else 0)%nat.
Proof using scales_positive ratios_nonzero scales_distinct.
  induction m as [|m IH]; intros Hm.
  - exists []. split; [reflexivity|]. intros i s Hi. lia.
  - destruct IH as [bs [Ebs Hbs]]; [lia|].
    destruct (nth_error scales m) as [sm|] eqn:Esm;
      [|apply nth_error_None in Esm; lia].
    destruct (box_sizes_of_scale_R m Esm) as [sizes Esizes].
    exists (dict_set bs sm sizes). split.
    + rewrite range_succ, foldM_app, Ebs. cbn [bind foldM].
      rewrite (list_get_nth_error _ _ Esm). cbn [bind].
      rewrite Esizes. reflexivity.
    + intros i s Hi Es. rewrite dict_get_set_R.
      destruct (Req_dec_T sm s) as [<-|N].
      * exists sizes. split; [reflexivity|].
        destruct (Nat.eq_dec i m) as [->|Nim].
        -- eapply box_sizes_of_scale_length. exact Esizes.
        -- exfalso. apply (scales_distinct Es Esm Nim). reflexivity.
      * apply Hbs; [|exact Es].
        destruct (Nat.eq_dec i m) as [->|Nim]; [congruence | lia].
Qed.

Lemma compute_box_sizes_R :
  exists box_sizes,
    compute_box_sizes scales ratios = Ok box_sizes /\
    forall (i : nat) (s : R),
      nth_error scales i = Some s ->
      exists sizes,
        dict_get box_sizes s = Ok sizes /\
        length sizes
        = (length ratios
           + if (Z.of_nat i <? Z.of_nat (length scales) - 1)%Z then 1 else 0)%nat.
Proof using scales_positive ratios_nonzero scales_distinct.
  destruct (compute_box_sizes_prefix_R (Nat.le_refl (length scales)))
    as [bs [Ebs Hbs]].
  exists bs. split; [exact Ebs|]. intros i s Es. apply Hbs; [|exact Es].
  apply nth_error_Some. congruence.
Qed.
End RealBoxSizes.

Section RealTotal.
Local Open Scope R_scope.

Lemma range_nth_error (a b : Z) (i : nat) (x : Z) :
  nth_error (range a b) i = Some x -> x = (a + Z.of_nat i)%Z /\ (x < b)%Z.
Proof.
  unfold range. rewrite nth_error_map. intros E.
  destruct (nth_error (seq 0 (Z.to_nat (b - a))) i) as [n|] eqn:En; [|discriminate].
  injection E as <-.
  assert (Hi : (i < length (seq 0 (Z.to_nat (b - a))))%nat)
    by (apply nth_error_Some; congruence).
  rewrite length_seq in Hi.
  rewrite nth_error_nth' with (d := 0%nat) in En by (rewrite length_seq; exact Hi).
  rewrite seq_nth in En by exact Hi. injection En as <-. cbn. lia.
Qed.

Lemma scales_R_nth_error (K : Z) (i : nat) (s : R) :
  nth_error (map (scale_of K) (range 1 (K + 1))) i = Some s ->
  s = scale_of K (1 + Z.of_nat i) /\ (1 + Z.of_nat i <= K)%Z.
Proof.
  rewrite nth_error_map. intros E.
  destruct (nth_error (range 1 (K + 1)) i) as [k|] eqn:Ek; [|discriminate].
  injection E as <-. apply range_nth_error in Ek as [-> Hk]. split; [reflexivity | lia].
Qed.

Lemma scales_R_positive (K : Z) :
  (2 <= K)%Z -> Forall (fun s => 0 < s) (map (scale_of K) (range 1 (K + 1))).
Proof.
  intros HK. apply List.Forall_forall. intros s Hs.
  apply in_map_iff in Hs as [k [<- Hk]]. apply range_In in Hk.
  apply scale_of_positive; lia.
Qed.

Lemma scales_R_distinct (K : Z) :
  (2 <= K)%Z -> distinct (map (scale_of K) (range 1 (K + 1))).
Proof.
  intros HK i j s s' Es Es' Nij.
  apply scales_R_nth_error in Es as [-> _].
  apply scales_R_nth_error in Es' as [-> _].
  destruct (Nat.lt_ge_cases i j) as [L|L].
  - apply Rlt_not_eq. apply scale_of_increasing; lia.
  - apply Rgt_not_eq. apply Rlt_gt. apply scale_of_increasing; lia.
Qed.

Lemma anchors_of_map_R (preset : SSDPreset) (scales : list R)
    (box_sizes : dict R (list (R * R))) (k : Z) (s : R) (map_size : Size Z)
    (sizes : list (R * R)) :
  list_get scales k = Ok s ->
  list_get (map_sizes preset) k = Ok map_size ->
  dict_get box_sizes s = Ok sizes ->
  exists l, anchors_of_map preset scales box_sizes k = Ok l.
Proof.
  intros Es Em Ed. unfold anchors_of_map. rewrite Es, Em. cbn [bind].
  apply for_append_exists. intros i Hi. apply range_In in Hi.
  rewrite pydiv_R by (cbn [fromZ PyNum_R]; apply not_0_IZR; lia). cbn [bind].
  apply for_append_exists. intros j Hj.
  rewrite pydiv_R by (cbn [fromZ PyNum_R]; apply not_0_IZR; lia). cbn [bind].
  rewrite Ed. cbn [bind]. eexists. reflexivity.
Qed.

(** On the reals, a preset with at least two maps and a size for every map
    has anchors, and their cells are the cells of the grids with six box
    shapes per cell on every map but the last, which has five. *)
Lemma get_anchors_for_preset_R (preset : SSDPreset) :
  (2 <= num_maps preset)%Z ->
  (num_maps preset <= Z.of_nat (length (map_sizes preset)))%Z ->
  exists anchors : list (Anchor R),
    get_anchors_for_preset preset = Ok anchors /\
    map cell anchors = expected_cells preset.
Proof.
  intros HK Hm.
  pose proof (@compute_scales_R preset ltac:(lia)) as Es.
  set (scales := map (scale_of (num_maps preset)) (range 1 (num_maps preset + 1))) in *.
  pose proof aspect_ratios_R as Er.
  set (ratios := [sqrt 1; sqrt 2; sqrt 3; sqrt (5 / 10); sqrt (1 / 3)]) in *.
  destruct (@compute_box_sizes_R scales ratios
              (scales_R_positive HK) aspect_ratios_R_nonzero (scales_R_distinct HK))
    as [bs [Eb Hbs]].
  pose proof (compute_scales_length _ Es) as Ls.
  assert (Hshape : forall k, (0 <= k < num_maps preset)%Z ->
            exists s sizes, list_get scales k = Ok s /\ dict_get bs s = Ok sizes /\
              length sizes = if (k <? num_maps preset - 1)%Z then 6%nat else 5%nat).
  { intros k Hk. destruct (@list_get_in_range _ scales k) as [s Esk]; [lia|].
    pose proof Esk as En. apply list_get_Ok in En; [|lia].
    destruct (Hbs _ _ En) as [sizes [Ed Lsz]].
    exists s, sizes. split; [exact Esk|]. split; [exact Ed|]. rewrite Lsz.
    rewrite Ls. rewrite !Z2Nat.id by lia. cbn [length ratios].
    destruct (k <? num_maps preset - 1)%Z; reflexivity. }
  assert (Hall : exists anchors,
            for_append (range 0 (Z.of_nat (length scales)))
                       (anchors_of_map preset scales bs) = Ok anchors).
  { apply for_append_exists. intros k Hk. apply range_In in Hk.
    destruct (Hshape k) as [s [sizes [Esk [Ed _]]]]; [lia|].
    destruct (@list_get_in_range _ (map_sizes preset) k) as [msz Em]; [lia|].
    apply (anchors_of_map_R _ _ _ _ Esk Em Ed). }
  destruct Hall as [anchors Ea].
  assert (E : get_anchors_for_preset preset = Ok anchors).
  { unfold get_anchors_for_preset. rewrite Es. cbn [bind]. rewrite Er. cbn [bind].
    rewrite Eb. cbn [bind]. exact Ea. }
  exists anchors. split; [exact E|].
  destruct (get_anchors_for_preset_cells _ E)
    as [scales' [ratios' [bs' [Es' [Er' [Eb' Hc]]]]]].
  assert (scales' = scales) by congruence. subst scales'.
  assert (ratios' = ratios) by congruence. subst ratios'.
  assert (bs' = bs) by congruence. subst bs'.
  rewrite Hc. unfold expected_cells. apply flat_map_ext_in.
  intros k Hk. apply range_In in Hk. f_equal.
  destruct (Hshape k) as [s [sizes [Esk [Ed Lsz]]]]; [lia|].
  unfold shapes_of_map. rewrite Esk. cbn [bind]. rewrite Ed. exact Lsz.
Qed.
End RealTotal.

(** * The number of anchors of the built-in presets *)

Lemma get_preset_by_name_builtin (pname : string) (preset : SSDPreset) :
  get_preset_by_name pname = Ok preset -> preset = vgg300 \/ preset = vgg500.
Proof.
  unfold get_preset_by_name, SSD_PRESETS. rewrite lookup_insert.
  case_decide; [intros [= <-]; left; reflexivity|].
  rewrite lookup_insert. case_decide; [intros [= <-]; right; reflexivity|].
  rewrite lookup_empty. discriminate.
Qed.

(** The generator run on binary64 numbers: number of anchors and cells of
    the two built-in presets. *)
Lemma get_anchors_for_preset_float_builtin (preset : SSDPreset) :
  preset = vgg300 \/ preset = vgg500 ->
  exists anchors : list (Anchor PrimFloat.float),
    get_anchors_for_preset preset = Ok anchors /\
    Z.of_nat (length anchors) = num_anchors preset /\
    map cell anchors = expected_cells preset.
Proof.
  intros Hp.
  assert (Hrun : (r <- get_anchors_for_preset (F := PrimFloat.float) preset ;;
                  Ok (Z.of_nat (length r) =? num_anchors preset,
                      bool_decide (map cell r = expected_cells preset)))
                 = Ok (true, true))
    by (destruct Hp as [-> | ->]; vm_compute; reflexivity).
  destruct (get_anchors_for_preset preset) as [anchors|e]; cbn [bind] in Hrun;
    [|discriminate].
  injection Hrun as Hlen Hcells.
  exists anchors. split; [reflexivity|]. split.
  - apply Z.eqb_eq. exact Hlen.
  - apply bool_decide_eq_true_1 in Hcells. exact Hcells.
Qed.

(** C2.  For each built-in preset, on the reals as on binary64 numbers,
    [get_anchors_for_preset] returns as many anchors as the field
    [num_anchors] of the preset declares (11639 for the 300x300 preset,
    32174 for the 500x500 preset), and the cells of the anchors are those
    of the grids with six box shapes per cell on every feature map but the
    last and five on the last. *)
Theorem get_anchors_for_preset_num_anchors (pname : string) (preset : SSDPreset) :
  get_preset_by_name pname = Ok preset ->
  (exists anchors : list (Anchor R),
     get_anchors_for_preset preset = Ok anchors /\
     Z.of_nat (length anchors) = num_anchors preset /\
     map cell anchors = expected_cells preset) /\
  (exists anchors : list (Anchor PrimFloat.float),
     get_anchors_for_preset preset = Ok anchors /\
     Z.of_nat (length anchors) = num_anchors preset /\
     map cell anchors = expected_cells preset) /\
  (preset = vgg300 /\ num_anchors preset = 11639 \/
   preset = vgg500 /\ num_anchors preset = 32174).
Proof.
  intros Hp. apply get_preset_by_name_builtin in Hp.
  split; [|split].
  - destruct (@get_anchors_for_preset_R preset) as [anchors [E Hc]].
    + destruct Hp as [-> | ->]; cbn; lia.
    + destruct Hp as [-> | ->]; cbn; lia.
    + exists anchors. split; [exact E|]. split; [|exact Hc].
      rewrite <- (length_map cell), Hc.
      destruct Hp as [-> | ->]; vm_compute; reflexivity.
  - apply get_anchors_for_preset_float_builtin. exact Hp.
  - destruct Hp as [-> | ->]; [left | right]; split; reflexivity.
Qed.

Lemma get_anchors_for_preset_num_anchors_witness :
  (exists anchors : list (Anchor R),
     get_anchors_for_preset vgg300 = Ok anchors /\
     Z.of_nat (length anchors) = num_anchors vgg300 /\
     map cell anchors = expected_cells vgg300) /\
  (exists anchors : list (Anchor PrimFloat.float),
     get_anchors_for_preset vgg300 = Ok anchors /\
     Z.of_nat (length anchors) = num_anchors vgg300 /\
     map cell anchors = expected_cells vgg300) /\
  (vgg300 = vgg300 /\ num_anchors vgg300 = 11639 \/
   vgg300 = vgg500 /\ num_anchors vgg300 = 32174).
Proof.
  apply (get_anchors_for_preset_num_anchors "vgg300"). vm_compute. reflexivity.
Defined.

(** * The scales *)

(** C6 (as amended).  On the reals, for a preset whose number [K] of
    feature maps is not 1, the first loop computes the scales
    [0.2 + (0.9 - 0.2) / (K - 1) * (k - 1)] for [k = 1 .. K], that is [K]
    of them (none when [K] is not positive), and the scale of every anchor
    is the scale of its feature map. *)
Theorem compute_scales_interpolation (preset : SSDPreset) :
  num_maps preset <> 1 ->
  compute_scales (F := R) preset
  = Ok (map (fun k => 2 / 10 + (9 / 10 - 2 / 10) / IZR (num_maps preset - 1) * IZR (k - 1))%R
            (range 1 (num_maps preset + 1))) /\
  (forall scales : list R,
     compute_scales preset = Ok scales ->
     Z.of_nat (length scales) = Z.max 0 (num_maps preset)) /\
  (forall anchors : list (Anchor R),
     get_anchors_for_preset preset = Ok anchors ->
     forall a, In a anchors ->
       0 <= anchor_map a < num_maps preset /\
       anchor_scale a
       = (2 / 10 + (9 / 10 - 2 / 10) / IZR (num_maps preset - 1)
                   * IZR (anchor_map a + 1 - 1))%R).
Proof.
  intros HK. split; [|split].
  - apply compute_scales_R. exact HK.
  - intros scales Es. rewrite (compute_scales_length _ Es). lia.
  - intros anchors E a Ha.
    destruct (get_anchors_for_preset_In _ E) as [scales [ratios [bs [Es [_ [_ Hin]]]]]].
    apply Hin in Ha. destruct Ha as [msz [sizes [Hk [Esk _]]]].
    pose proof (compute_scales_length _ Es) as Ls.
    rewrite (@compute_scales_R preset HK) in Es. injection Es as <-.
    apply list_get_Ok in Esk; [|lia].
    apply scales_R_nth_error in Esk as [-> Hle].
    split; [lia|]. unfold scale_of. do 3 f_equal. lia.
Qed.

Lemma compute_scales_interpolation_witness :
  compute_scales (F := R) vgg300
  = Ok (map (fun k => 2 / 10 + (9 / 10 - 2 / 10) / IZR (num_maps vgg300 - 1) * IZR (k - 1))%R
            (range 1 (num_maps vgg300 + 1))) /\
  (forall scales : list R,
     compute_scales vgg300 = Ok scales ->
     Z.of_nat (length scales) = Z.max 0 (num_maps vgg300)) /\
  (forall anchors : list (Anchor R),
     get_anchors_for_preset vgg300 = Ok anchors ->
     forall a, In a anchors ->
       0 <= anchor_map a < num_maps vgg300 /\
       anchor_scale a
       = (2 / 10 + (9 / 10 - 2 / 10) / IZR (num_maps vgg300 - 1)
                   * IZR (anchor_map a + 1 - 1))%R).
Proof. apply compute_scales_interpolation. cbn. lia. Defined.

(** C6, counterexample: with a single feature map the first loop divides
    by [K - 1 = 0]: no scale is computed and [get_anchors_for_preset]
    raises [ZeroDivisionError], on the reals as on binary64 numbers. *)
Lemma get_anchors_for_preset_one_map :
  num_maps one_map = 1 /\
  compute_scales (F := R) one_map = Raise ZeroDivisionError /\
  get_anchors_for_preset (F := R) one_map = Raise ZeroDivisionError /\
  get_anchors_for_preset (F := PrimFloat.float) one_map = Raise ZeroDivisionError.
Proof.
  split; [reflexivity|].
  assert (E : compute_scales (F := R) one_map = Raise ZeroDivisionError)
    by (apply compute_scales_R_one; reflexivity).
  split; [exact E|]. split; [|vm_compute; reflexivity].
  unfold get_anchors_for_preset. rewrite E. reflexivity.
Qed.

(** * The center of an anchor *)

(** For every anchor, the center abscissa is computed from the field [y]
    (the outer loop variable [i]) and the center ordinate from the field
    [x] (the inner loop variable [j]). *)
Lemma get_anchors_for_preset_center {F : Type} `{PyNum F} (preset : SSDPreset)
    (anchors : list (Anchor F)) :
  get_anchors_for_preset preset = Ok anchors ->
  forall a, In a anchors ->
  exists map_size : Size Z,
    list_get (map_sizes preset) (anchor_map a) = Ok map_size /\
    pydiv (fadd (fromZ (anchor_y a)) (decimal 5 1)) (fromZ (size_w map_size))
      = Ok (point_x (anchor_center a)) /\
    pydiv (fadd (fromZ (anchor_x a)) (decimal 5 1)) (fromZ (size_w map_size))
      = Ok (point_y (anchor_center a)).
Proof.
  intros E a Ha.
  destruct (get_anchors_for_preset_In _ E) as [scales [ratios [bs [_ [_ [_ Hin]]]]]].
  apply Hin in Ha. destruct Ha as [msz [sizes [_ [_ [Em [_ [_ [Ex [Ey _]]]]]]]]].
  exists msz. repeat split; assumption.
Qed.

(** C1, at a failing input.  In the anchors of the 300x300 preset, the
    anchor of index 6 lies on feature map 0, of grid size 38, and has the
    fields [x = 1] (column) and [y = 0] (row).  Its center is
    [((0 + 0.5) / 38, (1 + 0.5) / 38)]: the abscissa comes from the row
    and the ordinate from the column, and the abscissa is not
    [(1 + 0.5) / 38].  On binary64 numbers by running the generator; on
    the reals for the anchors of that cell. *)
Theorem get_anchors_for_preset_center_transposed :
  (exists a : Anchor PrimFloat.float,
     (anchors <- get_anchors_for_preset vgg300 ;; list_get anchors 6) = Ok a /\
     anchor_map a = 0 /\ anchor_x a = 1 /\ anchor_y a = 0 /\
     grid_size vgg300 (anchor_map a) = 38 /\
     point_x (anchor_center a) = fquot (fadd (fromZ 0) (decimal 5 1)) (fromZ 38) /\
     point_y (anchor_center a) = fquot (fadd (fromZ 1) (decimal 5 1)) (fromZ 38) /\
     feqb (point_x (anchor_center a))
          (fquot (fadd (fromZ (anchor_x a)) (decimal 5 1)) (fromZ 38)) = false) /\
  (exists (anchors : list (Anchor R)) (a : Anchor R),
     get_anchors_for_preset vgg300 = Ok anchors /\ In a anchors /\
     anchor_map a = 0 /\ anchor_x a = 1 /\ anchor_y a = 0 /\
     point_x (anchor_center a) = ((0 + 5 / 10) / 38)%R /\
     point_y (anchor_center a) = ((1 + 5 / 10) / 38)%R /\
     point_x (anchor_center a) <> ((IZR (anchor_x a) + 5 / 10) / 38)%R).
Proof.
  split.
  - eexists. split; [vm_compute; reflexivity|].
    repeat split; vm_compute; reflexivity.
  - destruct (@get_anchors_for_preset_R vgg300) as [anchors [E _]];
      [cbn; lia | cbn; lia |].
    destruct (proj2 (get_anchors_for_preset_grid _ E (k := 0) (map_size := mkSize 38 38)
                       ltac:(cbn; lia) eq_refl 0 1))
      as [a [Ha [Em [Ey Ex]]]]; [cbn; lia|].
    exists anchors, a. split; [exact E|]. split; [exact Ha|].
    split; [exact Em|]. split; [exact Ex|]. split; [exact Ey|].
    destruct (get_anchors_for_preset_center _ E a Ha) as [msz [Emsz [Ecx Ecy]]].
    rewrite Em in Emsz. injection Emsz as <-.
    rewrite Ey in Ecx. rewrite Ex in Ecy. cbn [size_w] in Ecx, Ecy.
    rewrite pydiv_R in Ecx by (cbn; lra). rewrite pydiv_R in Ecy by (cbn; lra).
    injection Ecx as Ecx. injection Ecy as Ecy.
    cbn [fromZ PyNum_R fadd fquot decimal] in Ecx, Ecy.
    change (IZR (10 ^ Z.of_nat 1)) with 10%R in Ecx, Ecy.
    split; [symmetry; exact Ecx|]. split; [symmetry; exact Ecy|].
    rewrite <- Ecx, Ex. intros C. lra.
Qed.

(** * Further properties of the Jaccard overlap *)

(** X1.  On the reals [jaccard_overlap] is symmetric: swapping the two
    boxes gives the same overlap, or the same exception. *)
Theorem jaccard_overlap_symmetric (p1 p2 : params R) :
  jaccard_overlap p1 p2 = jaccard_overlap p2 p1.
Proof.
  destruct p1 as [[[xmin1 xmax1] ymin1] ymax1].
  destruct p2 as [[[xmin2 xmax2] ymin2] ymax2].
  destruct (Rle_dec xmax2 xmin1) as [G1|G1];
    [|destruct (Rle_dec xmax1 xmin2) as [G2|G2];
      [|destruct (Rle_dec ymax2 ymin1) as [G3|G3];
        [|destruct (Rle_dec ymax1 ymin2) as [G4|G4]]]].
  1-4: rewrite !jaccard_overlap_guard by lra; reflexivity.
  apply Rnot_le_lt in G1, G2, G3, G4.
  rewrite (jaccard_overlap_quotient G1 G2 G3 G4).
  rewrite (jaccard_overlap_quotient G2 G1 G4 G3).
  rewrite (Rmin_comm xmax2 xmax1), (Rmax_comm xmin2 xmin1),
          (Rmin_comm ymax2 ymax1), (Rmax_comm ymin2 ymin1).
  f_equal. ring.
Qed.

(** The overlap of a box with a box that contains it. *)
Lemma jaccard_overlap_inside_R (xmin1 xmax1 ymin1 ymax1 xmin2 xmax2 ymin2 ymax2 : R) :
  (xmin1 < xmax1)%R -> (ymin1 < ymax1)%R ->
  (xmin2 <= xmin1)%R -> (xmax1 <= xmax2)%R ->
  (ymin2 <= ymin1)%R -> (ymax1 <= ymax2)%R ->
  jaccard_overlap (xmin1, xmax1, ymin1, ymax1) (xmin2, xmax2, ymin2, ymax2)
  = Ok (((xmax1 - xmin1) * (ymax1 - ymin1)) / ((xmax2 - xmin2) * (ymax2 - ymin2)))%R.
Proof.
  intros Px Py Ix1 Ix2 Iy1 Iy2.
  assert (A2 : (0 < (xmax2 - xmin2) * (ymax2 - ymin2))%R)
    by (apply Rmult_lt_0_compat; lra).
  rewrite jaccard_overlap_quotient by lra.
  rewrite (Rmin_left xmax1 xmax2), (Rmax_left xmin1 xmin2),
          (Rmin_left ymax1 ymax2), (Rmax_left ymin1 ymin2) by lra.
  rewrite pydiv_R by lra. f_equal. f_equal. ring.
Qed.

(** X2.  A box of positive width and height has overlap 1 with itself. *)
Theorem jaccard_overlap_self (p : params R) :
  proper p -> jaccard_overlap p p = Ok 1%R.
Proof.
  destruct p as [[[xmin xmax] ymin] ymax]. intros [Px Py].
  rewrite jaccard_overlap_inside_R by lra. f_equal.
  apply Rdiv_diag. apply Rgt_not_eq. apply Rlt_gt. apply Rmult_lt_0_compat; lra.
Qed.

Lemma jaccard_overlap_self_witness :
  jaccard_overlap (0, 10, 0, 20)%R (0, 10, 0, 20)%R = Ok 1%R.
Proof. apply jaccard_overlap_self. unfold proper. lra. Defined.

(** X3.  The overlap of a box of positive width and height with a box that
    contains it is the quotient of their areas. *)
Theorem jaccard_overlap_inside (p1 p2 : params R) :
  proper p1 -> inside p1 p2 ->
  jaccard_overlap p1 p2 = Ok (area p1 / area p2)%R.
Proof.
  destruct p1 as [[[xmin1 xmax1] ymin1] ymax1].
  destruct p2 as [[[xmin2 xmax2] ymin2] ymax2].
  intros [Px Py] [Ix1 [Ix2 [Iy1 Iy2]]]. unfold area.
  apply jaccard_overlap_inside_R; assumption.
Qed.

Lemma jaccard_overlap_inside_witness :
  jaccard_overlap (2, 4, 2, 4)%R (0, 10, 0, 10)%R
  = Ok (area (2, 4, 2, 4) / area (0, 10, 0, 10))%R.
Proof. apply jaccard_overlap_inside; unfold proper, inside; lra. Defined.

Lemma Rmin_affine (c t a b : R) :
  (0 < c)%R -> Rmin (c * a + t) (c * b + t) = (c * Rmin a b + t)%R.
Proof.
  intros Hc. unfold Rmin.
  destruct (Rle_dec (c * a + t) (c * b + t)), (Rle_dec a b); try reflexivity; nra.
Qed.

Lemma Rmax_affine (c t a b : R) :
  (0 < c)%R -> Rmax (c * a + t) (c * b + t) = (c * Rmax a b + t)%R.
Proof.
  intros Hc. unfold Rmax.
  destruct (Rle_dec (c * a + t) (c * b + t)), (Rle_dec a b); try reflexivity; nra.
Qed.

(** X4.  On the reals the overlap does not depend on the unit or on the
    origin of the coordinates: scaling both boxes by the same positive
    factor and moving both by the same vector gives the same overlap, or
    the same exception. *)
Theorem jaccard_overlap_transform (c tx ty : R) (p1 p2 : params R) :
  (0 < c)%R ->
  jaccard_overlap (transform c tx ty p1) (transform c tx ty p2)
  = jaccard_overlap p1 p2.
Proof.
  intros Hc.
  destruct p1 as [[[xmin1 xmax1] ymin1] ymax1].
  destruct p2 as [[[xmin2 xmax2] ymin2] ymax2].
  unfold transform.
  destruct (Rle_dec xmax2 xmin1) as [G1|G1];
    [|destruct (Rle_dec xmax1 xmin2) as [G2|G2];
      [|destruct (Rle_dec ymax2 ymin1) as [G3|G3];
        [|destruct (Rle_dec ymax1 ymin2) as [G4|G4]]]].
  1-4: rewrite !jaccard_overlap_guard by nra; reflexivity.
  apply Rnot_le_lt in G1, G2, G3, G4.
  rewrite (jaccard_overlap_quotient G1 G2 G3 G4).
  rewrite jaccard_overlap_quotient by nra.
  rewrite !Rmin_affine, !Rmax_affine by exact Hc.
  set (w := (Rmin xmax1 xmax2 - Rmax xmin1 xmin2)%R).
  set (h := (Rmin ymax1 ymax2 - Rmax ymin1 ymin2)%R).
  set (u := ((xmax1 - xmin1) * (ymax1 - ymin1)
             + (xmax2 - xmin2) * (ymax2 - ymin2) - w * h)%R).
  replace ((c * Rmin xmax1 xmax2 + tx - (c * Rmax xmin1 xmin2 + tx))
           * (c * Rmin ymax1 ymax2 + ty - (c * Rmax ymin1 ymin2 + ty)))%R
    with (c * c * (w * h))%R by (subst w h; ring).
  replace ((c * xmax1 + tx - (c * xmin1 + tx)) * (c * ymax1 + ty - (c * ymin1 + ty))
           + (c * xmax2 + tx - (c * xmin2 + tx)) * (c * ymax2 + ty - (c * ymin2 + ty))
           - c * c * (w * h))%R
    with (c * c * u)%R by (subst u; ring).
  assert (Hcc : (0 < c * c)%R) by nra.
  destruct (Req_dec_T u 0) as [U0|U0].
  - rewrite U0, Rmult_0_r. rewrite !pydiv_R_zero by reflexivity. reflexivity.
  - rewrite !pydiv_R by (try exact U0; nra). f_equal. field. split; [exact U0 | lra].
Qed.

Lemma jaccard_overlap_transform_witness :
  jaccard_overlap (transform 1000 3 4 (0, 1/2, 0, 1/2)%R)
                  (transform 1000 3 4 (1/4, 3/4, 1/4, 3/4)%R)
  = jaccard_overlap (0, 1/2, 0, 1/2)%R (1/4, 3/4, 1/4, 3/4)%R.
Proof. apply jaccard_overlap_transform. lra. Defined.

(** X5.  Two well-formed boxes whose overlap is 1 are equal. *)
Theorem jaccard_overlap_one (p1 p2 : params R) :
  well_formed p1 -> well_formed p2 ->
  jaccard_overlap p1 p2 = Ok 1%R -> p1 = p2.
Proof.
  destruct p1 as [[[xmin1 xmax1] ymin1] ymax1].
  destruct p2 as [[[xmin2 xmax2] ymin2] ymax2].
  unfold well_formed. intros [Wx1 Wy1] [Wx2 Wy2] E.
  destruct (Rle_dec xmax2 xmin1) as [G1|G1];
    [|destruct (Rle_dec xmax1 xmin2) as [G2|G2];
      [|destruct (Rle_dec ymax2 ymin1) as [G3|G3];
        [|destruct (Rle_dec ymax1 ymin2) as [G4|G4]]]].
  1-4: rewrite jaccard_overlap_guard in E by lra; injection E as E; lra.
  apply Rnot_le_lt in G1, G2, G3, G4.
  rewrite (jaccard_overlap_quotient G1 G2 G3 G4) in E.
  assert (Hw : (0 <= Rmin xmax1 xmax2 - Rmax xmin1 xmin2
                /\ Rmin xmax1 xmax2 - Rmax xmin1 xmin2 <= xmax1 - xmin1
                /\ Rmin xmax1 xmax2 - Rmax xmin1 xmin2 <= xmax2 - xmin2)%R).
  { unfold Rmin, Rmax.
    destruct (Rle_dec xmax1 xmax2), (Rle_dec xmin1 xmin2); lra. }
  assert (Hh : (0 <= Rmin ymax1 ymax2 - Rmax ymin1 ymin2
                /\ Rmin ymax1 ymax2 - Rmax ymin1 ymin2 <= ymax1 - ymin1
                /\ Rmin ymax1 ymax2 - Rmax ymin1 ymin2 <= ymax2 - ymin2)%R).
  { unfold Rmin, Rmax.
    destruct (Rle_dec ymax1 ymax2), (Rle_dec ymin1 ymin2); lra. }
  set (w := (Rmin xmax1 xmax2 - Rmax xmin1 xmin2)%R) in *.
  set (h := (Rmin ymax1 ymax2 - Rmax ymin1 ymin2)%R) in *.
  set (u := ((xmax1 - xmin1) * (ymax1 - ymin1)
             + (xmax2 - xmin2) * (ymax2 - ymin2) - w * h)%R) in *.
  assert (I1 : (w * h <= (xmax1 - xmin1) * (ymax1 - ymin1))%R) by nra.
  assert (I2 : (w * h <= (xmax2 - xmin2) * (ymax2 - ymin2))%R) by nra.
  destruct (Req_dec_T u 0) as [U0|U0];
    [rewrite pydiv_R_zero in E by exact U0; discriminate|].
  rewrite pydiv_R in E by exact U0. injection E as E.
  apply (f_equal (fun q => q * u)%R) in E.
  unfold Rdiv in E. rewrite Rmult_assoc, Rinv_l, Rmult_1_r, Rmult_1_l in E by exact U0.
  assert (E1 : (w * h = (xmax1 - xmin1) * (ymax1 - ymin1))%R) by (subst u; lra).
  assert (E2 : (w * h = (xmax2 - xmin2) * (ymax2 - ymin2))%R) by (subst u; lra).
  assert (I0 : (0 < w * h)%R) by (subst u; nra).
  assert (Pw : (0 < w)%R) by nra.
  assert (Ph : (0 < h)%R) by nra.
  assert (W1 : (w = xmax1 - xmin1)%R) by nra.
  assert (W2 : (w = xmax2 - xmin2)%R) by nra.
  assert (H1 : (h = ymax1 - ymin1)%R) by nra.
  assert (H2 : (h = ymax2 - ymin2)%R) by nra.
  clear E E1 E2 I0 I1 I2 U0 u.
  subst w h. unfold Rmin, Rmax in W1, W2, H1, H2.
  destruct (Rle_dec xmax1 xmax2), (Rle_dec xmin1 xmin2),
           (Rle_dec ymax1 ymax2), (Rle_dec ymin1 ymin2);
    repeat f_equal; lra.
Qed.

Lemma jaccard_overlap_one_witness :
  (0, 10, 0, 20)%R = (0, 10, 0, 20)%R.
Proof.
  apply jaccard_overlap_one; [unfold well_formed; lra | unfold well_formed; lra |].
  rewrite jaccard_overlap_inside_R by lra. f_equal. field.
Defined.

(** * Further properties of the regression target *)

Section LocationFacts.
Local Open Scope R_scope.

Lemma pylog_R_raise (a : R) : a <= 0 -> pylog a = Raise ValueError.
Proof. intros E. unfold pylog. rewrite fleb_R_true by exact E. reflexivity. Qed.

Lemma Rdiv_nonpos_pos (a b : R) : a <= 0 -> 0 < b -> a / b <= 0.
Proof.
  intros Ha Hb. unfold Rdiv.
  assert (0 < / b) by (apply Rinv_0_lt_compat; exact Hb). nra.
Qed.
End LocationFacts.

(** X6.  Against an anchor of positive width and height,
    [compute_location] returns the four targets when the box has a
    positive width and a positive height, and raises [ValueError] (the
    logarithm of a non-positive number) when the box has not. *)
Theorem compute_location_domain (box : Box R) (anchor : Anchor R) :
  (0 < size_w (anchor_size anchor))%R ->
  (0 < size_h (anchor_size anchor))%R ->
  ((0 < size_w (box_size box))%R -> (0 < size_h (box_size box))%R ->
   compute_location box anchor
   = Ok [((point_x (box_center box) - point_x (anchor_center anchor))
          / size_w (anchor_size anchor))%R;
         ((point_y (box_center box) - point_y (anchor_center anchor))
          / size_h (anchor_size anchor))%R;
         ln (size_w (box_size box) / size_w (anchor_size anchor));
         ln (size_h (box_size box) / size_h (anchor_size anchor))]) /\
  ((size_w (box_size box) <= 0)%R \/ (size_h (box_size box) <= 0)%R ->
   compute_location box anchor = Raise ValueError).
Proof.
  intros Haw Hah. unfold compute_location.
  rewrite !pydiv_R by lra. cbn [bind]. split.
  - intros Hbw Hbh.
    rewrite !pylog_R by (apply Rdiv_lt_0_compat; assumption). reflexivity.
  - intros [Hbw|Hbh].
    + rewrite pylog_R_raise by (apply Rdiv_nonpos_pos; assumption). reflexivity.
    + destruct (Rle_dec (size_w (box_size box)) 0) as [Hbw|Hbw].
      * rewrite pylog_R_raise by (apply Rdiv_nonpos_pos; assumption). reflexivity.
      * rewrite pylog_R by (apply Rdiv_lt_0_compat; lra). cbn [bind].
        rewrite pylog_R_raise by (apply Rdiv_nonpos_pos; assumption). reflexivity.
Qed.

Lemma compute_location_domain_witness :
  compute_location (mkBox (mkPoint (1/2) (1/2)) (mkSize 0 (1/2)))%R
                   (anchor_at (1/2) (1/2) (1/5) (1/5))%R
  = Raise ValueError.
Proof.
  apply (compute_location_domain
           (mkBox (mkPoint (1/2) (1/2)) (mkSize 0 (1/2)))%R
           (anchor_at (1/2) (1/2) (1/5) (1/5))%R); cbn; lra.
Defined.

(** X7.  Against an anchor of zero width or zero height,
    [compute_location] raises [ZeroDivisionError], whatever the box. *)
Theorem compute_location_zero_anchor (box : Box R) (anchor : Anchor R) :
  (size_w (anchor_size anchor) = 0)%R \/ (size_h (anchor_size anchor) = 0)%R ->
  compute_location box anchor = Raise ZeroDivisionError.
Proof.
  intros Hz. unfold compute_location.
  destruct (Req_dec_T (size_w (anchor_size anchor)) 0) as [Zw|Nw].
  - rewrite pydiv_R_zero by exact Zw. reflexivity.
  - destruct Hz as [Zw|Zh]; [contradiction|].
    rewrite pydiv_R by exact Nw. cbn [bind].
    rewrite pydiv_R_zero by exact Zh. reflexivity.
Qed.

Lemma compute_location_zero_anchor_witness :
  compute_location (mkBox (mkPoint (1/2) (1/2)) (mkSize (1/2) (1/2)))%R
                   (anchor_at (1/2) (1/2) (1/5) 0)%R
  = Raise ZeroDivisionError.
Proof. apply compute_location_zero_anchor. right. reflexivity. Defined.

(** X8.  Decoding undoes encoding: for a box and an anchor of positive
    widths and heights, [compute_location] returns four targets, and the
    box decoded from them against the anchor is the box. *)
Theorem decode_location_compute (box : Box R) (anchor : Anchor R) :
  (0 < size_w (anchor_size anchor))%R ->
  (0 < size_h (anchor_size anchor))%R ->
  (0 < size_w (box_size box))%R ->
  (0 < size_h (box_size box))%R ->
  exists dx dy dw dh : R,
    compute_location box anchor = Ok [dx; dy; dw; dh] /\
    decode_location anchor dx dy dw dh = box.
Proof.
  intros Haw Hah Hbw Hbh.
  destruct box as [[bx by_] [bw bh]].
  destruct anchor as [[ax ay] [aw ah] gx gy s k].
  cbn [box_center box_size anchor_center anchor_size point_x point_y size_w size_h] in *.
  do 4 eexists. split.
  - unfold compute_location.
    cbn [box_center box_size anchor_center anchor_size point_x point_y size_w size_h].
    rewrite !pydiv_R by lra. cbn [bind].
    rewrite !pylog_R by (apply Rdiv_lt_0_compat; assumption). reflexivity.
  - unfold decode_location.
    cbn [box_center box_size anchor_center anchor_size point_x point_y size_w size_h
         fsub PyNum_R].
    rewrite !exp_ln by (apply Rdiv_lt_0_compat; assumption).
    f_equal; f_equal; field; lra.
Qed.

Lemma decode_location_compute_witness :
  exists dx dy dw dh : R,
    compute_location (mkBox (mkPoint (1/2) (1/3)) (mkSize (1/4) (1/5)))%R
                     (anchor_at (1/2) (1/2) (1/5) (1/5))%R
    = Ok [dx; dy; dw; dh] /\
    decode_location (anchor_at (1/2) (1/2) (1/5) (1/5))%R dx dy dw dh
    = (mkBox (mkPoint (1/2) (1/3)) (mkSize (1/4) (1/5)))%R.
Proof. apply decode_location_compute; cbn; lra. Defined.

(** * Further properties of the matcher *)

Section MatcherThreshold.
Context {F : Type} `{PyNum F}.

Lemma fold_match_step_best_threshold (t1 t2 : F) (l : list (Z * F)) :
  forall (best : option (Score F)) (good1 good2 : list (Score F)),
  fst (fold_left (match_step t1) l (best, good1))
  = fst (fold_left (match_step t2) l (best, good2)).
Proof.
  induction l as [|[n j] l IH]; intros best good1 good2; cbn [fold_left];
    [reflexivity|].
  unfold match_step at 2 4. destruct (feqb j (fromZ 0)); apply IH.
Qed.

Lemma compute_overlap_Ok_overlaps
    (prop2abs : Point F -> Size F -> Size Z -> params F)
    (box : Box F) (anchors : list (Anchor F)) (threshold : F) (ov : Overlap F) :
  compute_overlap prop2abs box anchors threshold = Ok ov ->
  exists js, overlaps prop2abs box anchors = Ok js.
Proof.
  intros E. destruct (overlaps prop2abs box anchors) as [js|e] eqn:Eo.
  - exists js. reflexivity.
  - rewrite (compute_overlap_raise prop2abs box anchors threshold Eo) in E.
    discriminate.
Qed.
End MatcherThreshold.

(** X9.  The threshold has no influence on the best score nor on the
    exceptions: for two thresholds [compute_overlap] either returns twice,
    with the same best score, or raises the same exception twice. *)
Theorem compute_overlap_best_threshold {F : Type} `{PyNum F}
    (prop2abs : Point F -> Size F -> Size Z -> params F)
    (box : Box F) (anchors : list (Anchor F)) (t1 t2 : F) :
  match compute_overlap prop2abs box anchors t1,
        compute_overlap prop2abs box anchors t2 with
  | Ok o1, Ok o2 => overlap_best o1 = overlap_best o2
  | Raise e1, Raise e2 => e1 = e2
  | _, _ => False
  end.
Proof.
  destruct (overlaps prop2abs box anchors) as [js|e] eqn:E.
  - rewrite (compute_overlap_fold prop2abs box anchors t1 E).
    rewrite (compute_overlap_fold prop2abs box anchors t2 E).
    cbn [overlap_best]. apply fold_match_step_best_threshold.
  - rewrite (compute_overlap_raise prop2abs box anchors t1 E).
    rewrite (compute_overlap_raise prop2abs box anchors t2 E).
    reflexivity.
Qed.

Section MatcherReal.
Local Open Scope R_scope.

Lemma good_of_In (threshold : R) (js : list R) (i : Z) (j : R) :
  In (mkScore i j) (good_of threshold js) <->
  exists n : nat, i = Z.of_nat n /\ nth_error js n = Some j /\
                  j <> 0 /\ threshold < j.
Proof.
  unfold good_of. rewrite in_map_iff. split.
  - intros [[i' j'] [Eq Hf]]. cbn [fst snd] in Eq. injection Eq as -> ->.
    apply filter_In in Hf as [Hi Hk]. cbn [snd] in Hk.
    apply andb_true_iff in Hk as [Hz Ht].
    apply indexed_In in Hi as [n [-> Hn]].
    exists n. split; [lia|]. split; [exact Hn|]. split.
    + intros Z0. rewrite feqb_R_true in Hz by exact Z0. discriminate.
    + apply fltb_R_iff. exact Ht.
  - intros [n [-> [Hn [Hz Ht]]]]. exists (Z.of_nat n, j). split; [reflexivity|].
    apply filter_In. split.
    + apply indexed_In. exists n. split; [lia | exact Hn].
    + cbn [snd]. rewrite feqb_R_false by exact Hz.
      rewrite fltb_R_true by exact Ht. reflexivity.
Qed.

Lemma good_of_filter (t1 t2 : R) (js : list R) :
  t1 <= t2 ->
  good_of t2 js
  = List.filter (fun sc => fltb t2 (score_score sc)) (good_of t1 js).
Proof.
  intros Ht. unfold good_of. generalize (indexed 0 js). intros l.
  induction l as [|[n j] l IH]; [reflexivity|].
  cbn [List.filter snd].
  destruct (feqb j (fromZ 0)); cbn [negb andb]; [exact IH|].
  destruct (Rlt_dec t2 j) as [L2|L2].
  - rewrite (fltb_R_true L2). rewrite fltb_R_true by lra.
    cbn [map List.filter fst snd score_score]. rewrite (fltb_R_true L2).
    rewrite IH. reflexivity.
  - rewrite (fltb_R_false (a := t2) (b := j)) by lra.
    destruct (fltb t1 j) eqn:L1; [|exact IH].
    cbn [map List.filter fst snd score_score].
    rewrite (fltb_R_false (a := t2) (b := j)) by lra. exact IH.
Qed.
End MatcherReal.

(** X10.  Raising the threshold filters the good scores: for thresholds
    [t1 <= t2], the good scores for [t2] are the good scores for [t1]
    that exceed [t2], in the same order. *)
Theorem compute_overlap_good_threshold
    (prop2abs : Point R -> Size R -> Size Z -> params R)
    (box : Box R) (anchors : list (Anchor R)) (t1 t2 : R) (o1 o2 : Overlap R) :
  (t1 <= t2)%R ->
  compute_overlap prop2abs box anchors t1 = Ok o1 ->
  compute_overlap prop2abs box anchors t2 = Ok o2 ->
  overlap_good o2
  = List.filter (fun sc => fltb t2 (score_score sc)) (overlap_good o1).
Proof.
  intros Ht E1 E2.
  destruct (compute_overlap_Ok_overlaps _ _ _ _ E1) as [js E].
  rewrite (compute_overlap_fold prop2abs box anchors t1 E) in E1.
  rewrite (compute_overlap_fold prop2abs box anchors t2 E) in E2.
  injection E1 as <-. injection E2 as <-. cbn [overlap_good].
  rewrite !fold_match_step_good. cbn [app].
  apply (good_of_filter js Ht).
Qed.

Lemma compute_overlap_good_threshold_witness :
  exists o1 o2 : Overlap R,
    compute_overlap prop2abs_example
      (mkBox (mkPoint (1/2) (1/2)) (mkSize (1/2) (1/2)))%R
      [anchor_at (1/10) (1/10) (1/10) (1/10); anchor_at (1/2) (1/2) (1/2) (1/2)]%R
      (1/4)%R = Ok o1 /\
    compute_overlap prop2abs_example
      (mkBox (mkPoint (1/2) (1/2)) (mkSize (1/2) (1/2)))%R
      [anchor_at (1/10) (1/10) (1/10) (1/10); anchor_at (1/2) (1/2) (1/2) (1/2)]%R
      (1/2)%R = Ok o2 /\
    overlap_good o2
    = List.filter (fun sc => fltb (1/2)%R (score_score sc)) (overlap_good o1).
Proof.
  pose proof (compute_overlap_fold prop2abs_example _ _ (1/4)%R overlaps_example) as E1.
  pose proof (compute_overlap_fold prop2abs_example _ _ (1/2)%R overlaps_example) as E2.
  eexists. eexists. split; [exact E1|]. split; [exact E2|].
  eapply (@compute_overlap_good_threshold prop2abs_example _ _ (1/4)%R (1/2)%R);
    [lra | exact E1 | exact E2].
Defined.

(** X11.  The best score dominates the good ones: when [compute_overlap]
    returns, every good score is at most the best score (which is then
    present), and the best score is itself among the good scores exactly
    when it exceeds the threshold. *)
Theorem compute_overlap_good_best
    (prop2abs : Point R -> Size R -> Size Z -> params R)
    (box : Box R) (anchors : list (Anchor R)) (threshold : R) (ov : Overlap R) :
  compute_overlap prop2abs box anchors threshold = Ok ov ->
  (forall sc, In sc (overlap_good ov) ->
     exists b, overlap_best ov = Some b /\ (score_score sc <= score_score b)%R) /\
  (forall b, overlap_best ov = Some b ->
     (In b (overlap_good ov) <-> (threshold < score_score b)%R)).
Proof.
  intros E. destruct (compute_overlap_Ok_overlaps _ _ _ _ E) as [js Ej].
  rewrite (compute_overlap_fold prop2abs box anchors threshold Ej) in E.
  injection E as <-. cbn [overlap_good overlap_best].
  rewrite fold_match_step_good. cbn [app]. fold (good_of threshold js).
  pose proof (fold_match_step_best threshold js) as B.
  destruct (fst (fold_left (match_step threshold) (indexed 0 js) (None, [])))
    as [b|]; cbn [best_of] in B.
  - destruct B as [n [Hi [Hn [Hnz [Hmax _]]]]]. split.
    + intros [i j] Hsc. apply good_of_In in Hsc as [m [_ [Hm [Hz _]]]].
      exists b. split; [reflexivity|]. cbn [score_score]. eauto.
    + intros b' [= <-]. destruct b as [i j]. cbn [score_idx score_score] in *.
      rewrite good_of_In. split.
      * intros [m [_ [_ [_ Ht]]]]. exact Ht.
      * intros Ht. exists n. repeat split; assumption.
  - split; [|discriminate].
    intros [i j] Hsc. apply good_of_In in Hsc as [m [_ [Hm [Hz _]]]].
    apply nth_error_In in Hm. apply B in Hm. contradiction.
Qed.

Lemma compute_overlap_good_best_witness :
  exists ov : Overlap R,
    compute_overlap prop2abs_example
      (mkBox (mkPoint (1/2) (1/2)) (mkSize (1/2) (1/2)))%R
      [anchor_at (1/10) (1/10) (1/10) (1/10); anchor_at (1/2) (1/2) (1/2) (1/2)]%R
      (1/2)%R = Ok ov /\
    (forall sc, In sc (overlap_good ov) ->
       exists b, overlap_best ov = Some b /\ (score_score sc <= score_score b)%R) /\
    (forall b, overlap_best ov = Some b ->
       (In b (overlap_good ov) <-> (1/2 < score_score b)%R)).
Proof.
  pose proof (compute_overlap_fold prop2abs_example _ _ (1/2)%R overlaps_example) as E.
  eexists. split; [exact E|].
  exact (compute_overlap_good_best _ _ _ _ E).
Defined.

(** * Further properties of the anchors *)

Lemma mapM_In {A B : Type} (f : A -> result B) (l : list A) (bs : list B) :
  mapM f l = Ok bs -> forall b, In b bs -> exists a, In a l /\ f a = Ok b.
Proof.
  intros E. apply mapM_Ok in E. induction E as [|a b0 l bs Ea E IH]; intros b Hb.
  - contradiction.
  - destruct Hb as [<-|Hb].
    + exists a. split; [left; reflexivity | exact Ea].
    + destruct (IH b Hb) as [a' [Ha' Ea']]. exists a'. split; [right|]; assumption.
Qed.

Section RealEntries.
Local Open Scope R_scope.

Lemma pydiv_R_Ok (a b q : R) : pydiv a b = Ok q -> b <> 0 /\ q = a / b.
Proof.
  intros E. destruct (Req_dec_T b 0) as [Zb|Nb].
  - rewrite pydiv_R_zero in E by exact Zb. discriminate.
  - rewrite pydiv_R in E by exact Nb. injection E as <-. split; [exact Nb | reflexivity].
Qed.

Lemma pysqrt_R_Ok (a q : R) : pysqrt a = Ok q -> 0 <= a /\ q = sqrt a.
Proof.
  unfold pysqrt. cbn [fltb PyNum_R fromZ fsqrt]. destruct (Rlt_dec a 0) as [L|L].
  - discriminate.
  - intros [= <-]. split; [lra | reflexivity].
Qed.

Lemma dict_get_key_R {V : Type} (d : dict R V) (k : R) (v : V) :
  dict_get d k = Ok v -> In (k, v) d.
Proof.
  induction d as [|[k0 v0] d IH]; cbn [dict_get]; [discriminate|].
  destruct (Req_dec_T k0 k) as [->|N].
  - rewrite feqb_R_true by reflexivity. intros [= <-]. left. reflexivity.
  - rewrite feqb_R_false by exact N. intros E. right. apply IH. exact E.
Qed.

(** Every entry of the dictionary [box_sizes] is the list computed by the
    body of the second loop for its key. *)
Lemma compute_box_sizes_entries_R (scales ratios : list R)
    (box_sizes : dict R (list (R * R))) :
  compute_box_sizes scales ratios = Ok box_sizes ->
  forall (s : R) (sizes : list (R * R)),
    In (s, sizes) box_sizes ->
    exists i : Z,
      (0 <= i < Z.of_nat (length scales))%Z /\
      list_get scales i = Ok s /\
      box_sizes_of_scale scales ratios i s = Ok sizes.
Proof.
  intros E.
  pose proof (@foldM_invariant Z (dict R (list (R * R)))
                (fun d => forall s sizes, In (s, sizes) d ->
                   exists i : Z,
                     (0 <= i < Z.of_nat (length scales))%Z /\
                     list_get scales i = Ok s /\
                     box_sizes_of_scale scales ratios i s = Ok sizes))
    as Hinv.
  unfold compute_box_sizes in E.
  eapply Hinv; [| |exact E].
  - intros d i d' Hi Pd Ed s sizes Hin. apply range_In in Hi.
    apply bind_Ok in Ed as [s0 [Es0 Ed]]. apply bind_Ok in Ed as [l [El [= <-]]].
    assert (Hcase : (s = s0 /\ sizes = l) \/ In (s, sizes) d).
    { clear - Hin. induction d as [|[k0 v0] d IH]; cbn [dict_set] in Hin.
      - destruct Hin as [[= <- <-]|[]]. left. split; reflexivity.
      - destruct (Req_dec_T k0 s0) as [->|N].
        + rewrite feqb_R_true in Hin by reflexivity.
          destruct Hin as [[= <- <-]|Hin]; [left; split; reflexivity|].
          right. right. exact Hin.
        + rewrite feqb_R_false in Hin by exact N.
          destruct Hin as [Hin|Hin]; [right; left; exact Hin|].
          destruct (IH Hin) as [Hl|Hr]; [left; exact Hl | right; right; exact Hr]. }
    destruct Hcase as [[-> ->]|Hold]; [|apply Pd; exact Hold].
    exists i. split; [lia|]. split; assumption.
  - intros s sizes [].
Qed.

(** The box sizes of one scale: the sizes of the aspect ratios, and on
    every feature map but the last one more square. *)
Lemma box_sizes_of_scale_In_R (scales ratios : list R) (i : Z) (s : R)
    (sizes : list (R * R)) (w h : R) :
  box_sizes_of_scale scales ratios i s = Ok sizes ->
  In (w, h) sizes ->
  (exists r, In r ratios /\ r <> 0 /\ w = s * r /\ h = s / r) \/
  (exists s_next,
     (i < Z.of_nat (length scales) - 1)%Z /\
     list_get scales (i + 1) = Ok s_next /\
     0 <= s * s_next /\ w = sqrt (s * s_next) /\ h = sqrt (s * s_next)).
Proof.
  unfold box_sizes_of_scale. intros E Hin.
  apply bind_Ok in E as [l [El E]].
  assert (Hl : In (w, h) l ->
               exists r, In r ratios /\ r <> 0 /\ w = s * r /\ h = s / r).
  { intros Hwh. destruct (mapM_In _ _ El _ Hwh) as [r [Hr Er]].
    apply bind_Ok in Er as [q [Eq [= <- <-]]].
    apply pydiv_R_Ok in Eq as [Nr ->]. exists r. repeat split; assumption. }
  destruct (Z.ltb_spec i (Z.of_nat (length scales) - 1)) as [L|L].
  - apply bind_Ok in E as [s_next [En E]]. apply bind_Ok in E as [sp [Esp [= <-]]].
    apply in_app_or in Hin as [Hin|[[= <- <-]|[]]]; [left; apply Hl; exact Hin|].
    apply pysqrt_R_Ok in Esp as [Hpos ->].
    right. exists s_next. repeat split; assumption.
  - injection E as <-. left. apply Hl. exact Hin.
Qed.

Lemma aspect_ratios_R_positive :
  Forall (fun r => 0 < r) [sqrt 1; sqrt 2; sqrt 3; sqrt (5 / 10); sqrt (1 / 3)].
Proof. repeat constructor; (apply sqrt_lt_R0; lra). Qed.

Lemma list_get_In {A : Type} (l : list A) (i : Z) (a : A) :
  (0 <= i)%Z -> list_get l i = Ok a -> In a l.
Proof.
  intros Hi E. apply list_get_Ok in E; [|exact Hi]. eapply nth_error_In. exact E.
Qed.
End RealEntries.

Section RealGeometry.
Local Open Scope R_scope.

(** On the reals, an anchor exists only for a preset of at least two
    feature maps, and is an anchor for the interpolated scales. *)
Lemma get_anchors_for_preset_In_R (preset : SSDPreset) (anchors : list (Anchor R))
    (a : Anchor R) :
  get_anchors_for_preset preset = Ok anchors ->
  In a anchors ->
  (2 <= num_maps preset)%Z /\
  exists box_sizes,
    compute_box_sizes (map (scale_of (num_maps preset)) (range 1 (num_maps preset + 1)))
                      [sqrt 1; sqrt 2; sqrt 3; sqrt (5 / 10); sqrt (1 / 3)]
    = Ok box_sizes /\
    is_anchor preset (map (scale_of (num_maps preset)) (range 1 (num_maps preset + 1)))
              box_sizes a.
Proof.
  intros E Ha.
  destruct (get_anchors_for_preset_In _ E) as [scales [ratios [bs [Es [Er [Eb Hin]]]]]].
  apply Hin in Ha.
  assert (HK1 : num_maps preset <> 1%Z).
  { intros K1. rewrite (@compute_scales_R_one preset K1) in Es. discriminate. }
  pose proof (compute_scales_length _ Es) as Ls.
  assert (HK : (2 <= num_maps preset)%Z).
  { destruct Ha as [msz [sizes [Hk _]]]. lia. }
  rewrite (@compute_scales_R preset HK1) in Es. injection Es as <-.
  rewrite aspect_ratios_R in Er. injection Er as <-.
  split; [exact HK|]. exists bs. split; assumption.
Qed.

Lemma center_R (i fk : Z) (c : R) :
  (0 <= i < fk)%Z ->
  pydiv (fadd (fromZ i) (decimal 5 1)) (fromZ fk) = Ok c ->
  c = (IZR i + 5 / 10) / IZR fk /\ 0 < c < 1.
Proof.
  intros Hi E. apply pydiv_R_Ok in E as [_ ->].
  cbn [fromZ PyNum_R fadd]. change (decimal 5 1) with (5 / 10).
  split; [reflexivity|].
  assert (L0 : 0 <= IZR i) by (apply IZR_le; lia).
  assert (L1 : IZR i <= IZR fk - 1) by (rewrite <- minus_IZR; apply IZR_le; lia).
  assert (Pf : 0 < IZR fk) by lra.
  split.
  - apply Rdiv_lt_0_compat; lra.
  - apply (Rmult_lt_reg_r (IZR fk)); [exact Pf|].
    unfold Rdiv. rewrite Rmult_assoc, Rinv_l by lra. lra.
Qed.
End RealGeometry.

(** X12.  On the reals every anchor has a positive width and a positive
    height, and its center lies strictly inside the unit square. *)
Theorem get_anchors_for_preset_geometry (preset : SSDPreset)
    (anchors : list (Anchor R)) :
  get_anchors_for_preset preset = Ok anchors ->
  forall a, In a anchors ->
    (0 < size_w (anchor_size a))%R /\ (0 < size_h (anchor_size a))%R /\
    (0 < point_x (anchor_center a) < 1)%R /\
    (0 < point_y (anchor_center a) < 1)%R.
Proof.
  intros E a Ha.
  destruct (@get_anchors_for_preset_In_R _ _ _ E Ha) as [HK [bs [Eb Hanchor]]].
  destruct Hanchor as [msz [sizes [Hk [Esk [Em [Hi [Hj [Ex [Ey [Ed Hsz]]]]]]]]]].
  pose proof (scales_R_positive HK) as Hpos. rewrite List.Forall_forall in Hpos.
  pose proof aspect_ratios_R_positive as Hrat. rewrite List.Forall_forall in Hrat.
  apply dict_get_key_R in Ed.
  destruct (@compute_box_sizes_entries_R _ _ _ Eb _ _ Ed) as [i [Hir [Ei Ebox]]].
  assert (Ps : (0 < anchor_scale a)%R)
    by (apply Hpos; apply (@list_get_In _ _ _ _ (proj1 Hir) Ei)).
  split; [|split; [|split]].
  - destruct (@box_sizes_of_scale_In_R _ _ _ _ _ _ _ Ebox Hsz)
      as [[r [Hr [_ [-> _]]]]|[s' [_ [En [_ [-> _]]]]]].
    + apply Rmult_lt_0_compat; [exact Ps | apply Hrat; exact Hr].
    + apply sqrt_lt_R0. apply Rmult_lt_0_compat; [exact Ps|].
      apply Hpos. apply (@list_get_In _ _ (i + 1)%Z _); [lia | exact En].
  - destruct (@box_sizes_of_scale_In_R _ _ _ _ _ _ _ Ebox Hsz)
      as [[r [Hr [_ [_ ->]]]]|[s' [_ [En [_ [_ ->]]]]]].
    + apply Rdiv_lt_0_compat; [exact Ps | apply Hrat; exact Hr].
    + apply sqrt_lt_R0. apply Rmult_lt_0_compat; [exact Ps|].
      apply Hpos. apply (@list_get_In _ _ (i + 1)%Z _); [lia | exact En].
  - apply (@center_R _ _ _ Hi Ex).
  - apply (@center_R _ _ _ Hj Ey).
Qed.

Lemma get_anchors_for_preset_geometry_witness :
  exists anchors : list (Anchor R),
    get_anchors_for_preset vgg300 = Ok anchors /\
    forall a, In a anchors ->
      (0 < size_w (anchor_size a))%R /\ (0 < size_h (anchor_size a))%R /\
      (0 < point_x (anchor_center a) < 1)%R /\
      (0 < point_y (anchor_center a) < 1)%R.
Proof.
  destruct (@get_anchors_for_preset_R vgg300) as [anchors [E _]];
    [cbn; lia | cbn; lia |].
  exists anchors. split; [exact E|].
  exact (@get_anchors_for_preset_geometry _ _ E).
Defined.

Section RealScales.
Local Open Scope R_scope.

Lemma is_anchor_scale_R (preset : SSDPreset) (box_sizes : dict R (list (R * R)))
    (a : Anchor R) :
  is_anchor preset (map (scale_of (num_maps preset)) (range 1 (num_maps preset + 1)))
            box_sizes a ->
  (0 <= anchor_map a < num_maps preset)%Z /\
  anchor_scale a = scale_of (num_maps preset) (anchor_map a + 1).
Proof.
  intros [msz [sizes [Hk [Esk _]]]].
  rewrite length_map, range_length in Hk.
  apply list_get_Ok in Esk; [|lia].
  apply scales_R_nth_error in Esk as [-> Hle].
  split; [lia|]. f_equal. lia.
Qed.

Lemma scale_of_bounds (K k : Z) :
  (2 <= K)%Z -> (1 <= k <= K)%Z -> 2 / 10 <= scale_of K k <= 9 / 10.
Proof.
  intros HK Hk. unfold scale_of.
  assert (D : 0 < IZR (K - 1)) by (apply IZR_lt; lia).
  assert (L0 : 0 <= IZR (k - 1)) by (apply IZR_le; lia).
  assert (L1 : IZR (k - 1) <= IZR (K - 1)) by (apply IZR_le; lia).
  assert (Q : 0 < (9 / 10 - 2 / 10) / IZR (K - 1))
    by (apply Rdiv_lt_0_compat; lra).
  assert (T : (9 / 10 - 2 / 10) / IZR (K - 1) * IZR (K - 1) = 9 / 10 - 2 / 10)
    by (field; lra).
  assert (M : (9 / 10 - 2 / 10) / IZR (K - 1) * IZR (k - 1)
              <= (9 / 10 - 2 / 10) / IZR (K - 1) * IZR (K - 1))
    by (apply Rmult_le_compat_l; lra).
  assert (0 <= (9 / 10 - 2 / 10) / IZR (K - 1) * IZR (k - 1))
    by (apply Rmult_le_pos; lra).
  lra.
Qed.

Lemma scale_of_first (K : Z) : scale_of K 1 = 2 / 10.
Proof. unfold scale_of. change (IZR (1 - 1)) with 0. lra. Qed.

Lemma scale_of_last (K : Z) : (2 <= K)%Z -> scale_of K K = 9 / 10.
Proof.
  intros HK. unfold scale_of.
  assert (D : 0 < IZR (K - 1)) by (apply IZR_lt; lia). field. lra.
Qed.
End RealScales.

(** X13.  On the reals the scale of an anchor depends on its feature map
    alone; it lies between 0.2 and 0.9, is 0.2 on the first map and 0.9 on
    the last, and grows strictly with the feature map. *)
Theorem get_anchors_for_preset_scale_order (preset : SSDPreset)
    (anchors : list (Anchor R)) :
  get_anchors_for_preset preset = Ok anchors ->
  forall a b, In a anchors -> In b anchors ->
    (2 / 10 <= anchor_scale a <= 9 / 10)%R /\
    (anchor_map a = 0 -> anchor_scale a = (2 / 10)%R) /\
    (anchor_map a = num_maps preset - 1 -> anchor_scale a = (9 / 10)%R) /\
    (anchor_map a = anchor_map b -> anchor_scale a = anchor_scale b) /\
    (anchor_map a < anchor_map b -> (anchor_scale a < anchor_scale b)%R).
Proof.
  intros E a b Ha Hb.
  destruct (@get_anchors_for_preset_In_R _ _ _ E Ha) as [HK [bsa [_ Aa]]].
  destruct (@get_anchors_for_preset_In_R _ _ _ E Hb) as [_ [bsb [_ Ab]]].
  apply is_anchor_scale_R in Aa as [Hka Ea].
  apply is_anchor_scale_R in Ab as [Hkb Eb].
  rewrite Ea, Eb. split; [|split; [|split; [|split]]].
  - apply scale_of_bounds; lia.
  - intros ->. apply scale_of_first.
  - intros ->. replace (num_maps preset - 1 + 1) with (num_maps preset) by lia.
    apply scale_of_last. exact HK.
  - intros ->. reflexivity.
  - intros L. apply scale_of_increasing; lia.
Qed.

Lemma get_anchors_for_preset_scale_order_witness :
  exists anchors : list (Anchor R),
    get_anchors_for_preset vgg300 = Ok anchors /\
    forall a b, In a anchors -> In b anchors ->
      (2 / 10 <= anchor_scale a <= 9 / 10)%R /\
      (anchor_map a = 0 -> anchor_scale a = (2 / 10)%R) /\
      (anchor_map a = num_maps vgg300 - 1 -> anchor_scale a = (9 / 10)%R) /\
      (anchor_map a = anchor_map b -> anchor_scale a = anchor_scale b) /\
      (anchor_map a < anchor_map b -> (anchor_scale a < anchor_scale b)%R).
Proof.
  destruct (@get_anchors_for_preset_R vgg300) as [anchors [E _]];
    [cbn; lia | cbn; lia |].
  exists anchors. split; [exact E|].
  exact (@get_anchors_for_preset_scale_order _ _ E).
Defined.

(** X14.  On the reals the shape of an anchor of scale [s] is one of six:
    for an aspect ratio [rho] among 1, 2, 3, 1/2 and 1/3, the width
    [s * sqrt rho] and the height [s / sqrt rho], of area [s * s] and of
    width to height ratio [rho]; or, on every feature map but the last,
    the square whose side is the geometric mean of [s] and of the scale of
    the next feature map. *)
Theorem get_anchors_for_preset_shapes (preset : SSDPreset)
    (anchors : list (Anchor R)) :
  get_anchors_for_preset preset = Ok anchors ->
  forall a, In a anchors ->
    (exists rho : R,
       (rho = 1 \/ rho = 2 \/ rho = 3 \/ rho = 1 / 2 \/ rho = 1 / 3)%R /\
       size_w (anchor_size a) = (anchor_scale a * sqrt rho)%R /\
       size_h (anchor_size a) = (anchor_scale a / sqrt rho)%R /\
       (size_w (anchor_size a) * size_h (anchor_size a)
        = anchor_scale a * anchor_scale a)%R /\
       (size_w (anchor_size a) / size_h (anchor_size a) = rho)%R) \/
    (anchor_map a < num_maps preset - 1 /\
     size_w (anchor_size a) = size_h (anchor_size a) /\
     (size_w (anchor_size a) * size_w (anchor_size a)
      = anchor_scale a * scale_of (num_maps preset) (anchor_map a + 2))%R).
Proof.
  intros E a Ha.
  destruct (@get_anchors_for_preset_In_R _ _ _ E Ha) as [HK [bs [Eb Hanchor]]].
  pose proof (is_anchor_scale_R Hanchor) as [Hka Esa].
  destruct Hanchor as [msz [sizes [Hk [Esk [_ [_ [_ [_ [_ [Ed Hsz]]]]]]]]]].
  pose proof (scales_R_positive HK) as Hpos. rewrite List.Forall_forall in Hpos.
  apply dict_get_key_R in Ed.
  destruct (@compute_box_sizes_entries_R _ _ _ Eb _ _ Ed) as [i [Hir [Ei Ebox]]].
  assert (Ps : (0 < anchor_scale a)%R)
    by (apply Hpos; apply (@list_get_In _ _ _ _ (proj1 Hir) Ei)).
  destruct (@box_sizes_of_scale_In_R _ _ _ _ _ _ _ Ebox Hsz)
    as [[r [Hr [Nr [Ew Eh]]]]|[s' [Hlast [En [Hnn [Ew Eh]]]]]].
  - left.
    assert (Hrho : exists rho : R,
               (rho = 1 \/ rho = 2 \/ rho = 3 \/ rho = 1 / 2 \/ rho = 1 / 3)%R /\
               r = sqrt rho /\ (0 < rho)%R).
    { cbn [In] in Hr.
      destruct Hr as [<-|[<-|[<-|[<-|[<-|[]]]]]].
      - exists 1%R. split; [tauto|]. split; [reflexivity | lra].
      - exists 2%R. split; [tauto|]. split; [reflexivity | lra].
      - exists 3%R. split; [tauto|]. split; [reflexivity | lra].
      - exists (1 / 2)%R. split; [tauto|]. split; [f_equal; lra | lra].
      - exists (1 / 3)%R. split; [tauto|]. split; [reflexivity | lra]. }
    destruct Hrho as [rho [Hcase [-> Prho]]].
    exists rho. split; [exact Hcase|]. rewrite Ew, Eh.
    split; [reflexivity|]. split; [reflexivity|].
    assert (Sq : (sqrt rho * sqrt rho = rho)%R) by (apply sqrt_sqrt; lra).
    split.
    + field_simplify_eq; [ring | exact Nr].
    + rewrite <- Sq at 3. field. split; [exact Nr | lra].
  - right.
    assert (Ei' := Ei). assert (Esk' := Esk).
    apply list_get_Ok in Ei'; [|lia]. apply list_get_Ok in Esk'; [|lia].
    assert (Eidx : Z.to_nat i = Z.to_nat (anchor_map a)).
    { destruct (Nat.eq_dec (Z.to_nat i) (Z.to_nat (anchor_map a))) as [Eq|Ne];
        [exact Eq|].
      exfalso. apply (scales_R_distinct HK Ei' Esk' Ne). reflexivity. }
    assert (i = anchor_map a) by lia. subst i.
    apply list_get_Ok in En; [|lia].
    apply scales_R_nth_error in En as [-> _].
    split; [rewrite length_map, range_length in Hlast; lia|].
    split; [congruence|].
    rewrite Ew. rewrite sqrt_sqrt by exact Hnn. do 2 f_equal. lia.
Qed.

Lemma get_anchors_for_preset_shapes_witness :
  exists anchors : list (Anchor R),
    get_anchors_for_preset vgg300 = Ok anchors /\
    forall a, In a anchors ->
      (exists rho : R,
         (rho = 1 \/ rho = 2 \/ rho = 3 \/ rho = 1 / 2 \/ rho = 1 / 3)%R /\
         size_w (anchor_size a) = (anchor_scale a * sqrt rho)%R /\
         size_h (anchor_size a) = (anchor_scale a / sqrt rho)%R /\
         (size_w (anchor_size a) * size_h (anchor_size a)
          = anchor_scale a * anchor_scale a)%R /\
         (size_w (anchor_size a) / size_h (anchor_size a) = rho)%R) \/
      (anchor_map a < num_maps vgg300 - 1 /\
       size_w (anchor_size a) = size_h (anchor_size a) /\
       (size_w (anchor_size a) * size_w (anchor_size a)
        = anchor_scale a * scale_of (num_maps vgg300) (anchor_map a + 2))%R).
Proof.
  destruct (@get_anchors_for_preset_R vgg300) as [anchors [E _]];
    [cbn; lia | cbn; lia |].
  exists anchors. split; [exact E|].
  exact (@get_anchors_for_preset_shapes _ _ E).
Defined.

(** * The number and the order of the anchors *)

Lemma length_flat_map_const {A B : Type} (f : A -> list B) (l : list A) (c : nat) :
  (forall a, In a l -> length (f a) = c) ->
  length (flat_map f l) = (length l * c)%nat.
Proof.
  induction l as [|a l IH]; intros E; cbn [flat_map length]; [reflexivity|].
  rewrite length_app, (E a) by (left; reflexivity).
  rewrite IH by (intros; apply E; right; assumption). lia.
Qed.

Lemma cells_of_map_length (k fk : Z) (shapes : nat) :
  Z.of_nat (length (cells_of_map k fk shapes))
  = Z.max 0 fk * Z.max 0 fk * Z.of_nat shapes.
Proof.
  unfold cells_of_map.
  rewrite (@length_flat_map_const _ _ _ _ (Z.to_nat fk * shapes)%nat).
  - rewrite range_length. lia.
  - intros i _. rewrite (@length_flat_map_const _ _ _ _ shapes).
    + rewrite range_length. f_equal. lia.
    + intros j _. apply repeat_length.
Qed.

Lemma expected_cells_length (preset : SSDPreset) :
  Z.of_nat (length (expected_cells preset)) = expected_count preset.
Proof.
  unfold expected_cells, expected_count.
  induction (range 0 (num_maps preset)) as [|k l IH]; [reflexivity|].
  cbn [flat_map map fold_right]. rewrite length_app, Nat2Z.inj_add, IH.
  rewrite cells_of_map_length. f_equal.
  destruct (k <? num_maps preset - 1); reflexivity.
Qed.

(** X15.  On the reals, a preset with at least two feature maps and a size
    for every map has anchors, whose number is the sum over the feature
    maps of the square of the grid size times the number of box shapes:
    six on every map but the last, five on the last. *)
Theorem get_anchors_for_preset_count (preset : SSDPreset) :
  2 <= num_maps preset ->
  num_maps preset <= Z.of_nat (length (map_sizes preset)) ->
  exists anchors : list (Anchor R),
    get_anchors_for_preset preset = Ok anchors /\
    Z.of_nat (length anchors) = expected_count preset.
Proof.
  intros HK Hm.
  destruct (@get_anchors_for_preset_R preset HK Hm) as [anchors [E Hc]].
  exists anchors. split; [exact E|].
  rewrite <- (length_map cell), Hc. apply expected_cells_length.
Qed.

Lemma get_anchors_for_preset_count_witness :
  exists anchors : list (Anchor R),
    get_anchors_for_preset two_maps = Ok anchors /\
    Z.of_nat (length anchors) = 29.
Proof. apply (get_anchors_for_preset_count two_maps); cbn; lia. Defined.

Section SortedFacts.
Context {A : Type} (le : A -> A -> Prop).

Lemma StronglySorted_append (l1 l2 : list A) :
  StronglySorted le l1 -> StronglySorted le l2 ->
  (forall x y, In x l1 -> In y l2 -> le x y) ->
  StronglySorted le (l1 ++ l2).
Proof.
  intros S1 S2 H12. induction S1 as [|a l1 S1 IH Hall]; cbn [app]; [exact S2|].
  constructor.
  - apply IH. intros x y Hx Hy. apply H12; [right; exact Hx | exact Hy].
  - apply List.Forall_forall. intros y Hy. apply in_app_or in Hy as [Hy|Hy].
    + rewrite List.Forall_forall in Hall. apply Hall. exact Hy.
    + apply H12; [left; reflexivity | exact Hy].
Qed.

Lemma StronglySorted_flat_map {B : Type} (lt : B -> B -> Prop)
    (f : B -> list A) (l : list B) :
  StronglySorted lt l ->
  (forall b, In b l -> StronglySorted le (f b)) ->
  (forall b b' x y, lt b b' -> In x (f b) -> In y (f b') -> le x y) ->
  StronglySorted le (flat_map f l).
Proof.
  intros S Hf Hlt. induction S as [|b l S IH Hall]; cbn [flat_map]; [constructor|].
  apply StronglySorted_append.
  - apply Hf. left. reflexivity.
  - apply IH. intros b' Hb'. apply Hf. right. exact Hb'.
  - intros x y Hx Hy. apply in_flat_map in Hy as [b' [Hb' Hy]].
    rewrite List.Forall_forall in Hall. apply (Hlt b b'); [apply Hall| |]; assumption.
Qed.

Lemma StronglySorted_repeat (a : A) (n : nat) :
  le a a -> StronglySorted le (repeat a n).
Proof.
  intros Ha. induction n as [|n IH]; cbn [repeat]; constructor; [exact IH|].
  apply List.Forall_forall. intros x Hx. apply repeat_spec in Hx. subst x. exact Ha.
Qed.

Lemma StronglySorted_of_map {B : Type} (f : B -> A) (l : list B) :
  StronglySorted le (map f l) -> StronglySorted (fun x y => le (f x) (f y)) l.
Proof.
  induction l as [|b l IH]; cbn [map]; intros S; [constructor|].
  inversion S as [|a l' S' Hall]; subst. constructor; [apply IH; exact S'|].
  rewrite List.Forall_forall in Hall. apply List.Forall_forall.
  intros x Hx. apply Hall. apply in_map. exact Hx.
Qed.
End SortedFacts.

Lemma range_sorted (a b : Z) : StronglySorted Z.lt (range a b).
Proof.
  unfold range. generalize (Z.to_nat (b - a)) as n. generalize 0%nat as s.
  intros s n. revert s. induction n as [|n IH]; intros s; cbn [seq map]; constructor.
  - apply IH.
  - apply List.Forall_forall. intros x Hx.
    apply in_map_iff in Hx as [m [<- Hm]]. apply in_seq in Hm. lia.
Qed.

Lemma cells_of_map_sorted (k fk : Z) (shapes : nat) :
  StronglySorted cell_le (cells_of_map k fk shapes) /\
  forall c, In c (cells_of_map k fk shapes) -> fst (fst c) = k.
Proof.
  unfold cells_of_map. split.
  - apply (@StronglySorted_flat_map _ cell_le _ Z.lt); [apply range_sorted| |].
    + intros i _. apply (@StronglySorted_flat_map _ cell_le _ Z.lt); [apply range_sorted| |].
      * intros j _. apply StronglySorted_repeat. cbn. lia.
      * intros j j' x y Hlt Hx Hy. apply repeat_spec in Hx, Hy. subst. cbn. lia.
    + intros i i' x y Hlt Hx Hy.
      apply in_flat_map in Hx as [j [_ Hx]]. apply in_flat_map in Hy as [j' [_ Hy]].
      apply repeat_spec in Hx, Hy. subst. cbn. lia.
  - intros c Hc. apply in_flat_map in Hc as [i [_ Hc]].
    apply in_flat_map in Hc as [j [_ Hc]]. apply repeat_spec in Hc. subst. reflexivity.
Qed.

(** X16.  The anchors come in the order of the loops: by feature map, then
    by grid row (the field [y]), then by grid column (the field [x]); an
    anchor never precedes an anchor of an earlier cell. *)
Theorem get_anchors_for_preset_order {F : Type} `{PyNum F} (preset : SSDPreset)
    (anchors : list (Anchor F)) :
  get_anchors_for_preset preset = Ok anchors ->
  StronglySorted (fun a b => cell_le (cell a) (cell b)) anchors.
Proof.
  intros E.
  destruct (get_anchors_for_preset_cells _ E) as [scales [ratios [bs [_ [_ [_ Hc]]]]]].
  apply StronglySorted_of_map. rewrite Hc.
  apply (@StronglySorted_flat_map _ cell_le _ Z.lt); [apply range_sorted| |].
  - intros k _. apply cells_of_map_sorted.
  - intros k k' x y Hlt Hx Hy.
    apply cells_of_map_sorted in Hx, Hy.
    destruct x as [[k1 i1] j1], y as [[k2 i2] j2]. cbn [fst] in Hx, Hy. subst.
    cbn. lia.
Qed.

Lemma get_anchors_for_preset_order_witness :
  exists anchors : list (Anchor PrimFloat.float),
    get_anchors_for_preset two_maps = Ok anchors /\
    StronglySorted (fun a b => cell_le (cell a) (cell b)) anchors.
Proof.
  destruct (get_anchors_for_preset (F := PrimFloat.float) two_maps)
    as [anchors|e] eqn:E; [|vm_compute in E; discriminate].
  exists anchors. split; [reflexivity|].
  exact (get_anchors_for_preset_order _ E).
Defined.

(** * Edge cases of the generator *)

Lemma mapM_raise {A B : Type} (f : A -> result B) (l1 l2 : list A) (a : A) (e : exn) :
  (forall x, In x l1 -> exists b, f x = Ok b) ->
  f a = Raise e ->
  mapM f (l1 ++ a :: l2) = Raise e.
Proof.
  intros Hl1 Ea. induction l1 as [|x l1 IH]; cbn [app mapM].
  - rewrite Ea. reflexivity.
  - destruct (Hl1 x) as [b Eb]; [left; reflexivity|]. rewrite Eb. cbn [bind].
    rewrite IH by (intros; apply Hl1; right; assumption). reflexivity.
Qed.

Lemma map_seq_shift {B : Type} (len : nat) :
  forall (s : nat) (f : nat -> B),
  map f (seq s len) = map (fun i => f (s + i)%nat) (seq 0 len).
Proof.
  induction len as [|len IH]; intros s f; cbn [seq map]; [reflexivity|].
  f_equal; [f_equal; lia|].
  rewrite (IH (S s) f), (IH 1%nat (fun i => f (s + i)%nat)).
  apply map_ext. intros i. f_equal. lia.
Qed.

Lemma range_split (n b : Z) :
  0 <= n < b -> range 0 b = range 0 n ++ n :: range (n + 1) b.
Proof.
  intros Hn. unfold range.
  replace (Z.to_nat (b - 0)) with (Z.to_nat n + S (Z.to_nat (b - (n + 1))))%nat by lia.
  replace (Z.to_nat (n - 0)) with (Z.to_nat n) by lia.
  rewrite seq_app, map_app. f_equal. cbn [seq map]. f_equal; [lia|].
  rewrite map_seq_shift. apply map_ext. intros i. lia.
Qed.

Lemma list_get_out_of_range {A : Type} (l : list A) (i : Z) :
  Z.of_nat (length l) <= i -> list_get l i = Raise IndexError.
Proof.
  intros Hi. unfold list_get.
  destruct (Z.ltb_spec i 0) as [L|_]; [lia|].
  destruct (Z.ltb_spec i 0) as [L|_]; [lia|]. cbn [orb].
  destruct (Z.leb_spec (Z.of_nat (length l)) i) as [_|L]; [reflexivity | lia].
Qed.

(** X17.  On the reals, for a preset with at least two feature maps and
    fewer map sizes than feature maps, [get_anchors_for_preset] raises
    [IndexError]. *)
Theorem get_anchors_for_preset_missing_map_size (preset : SSDPreset) :
  2 <= num_maps preset ->
  Z.of_nat (length (map_sizes preset)) < num_maps preset ->
  get_anchors_for_preset (F := R) preset = Raise IndexError.
Proof.
  intros HK Hm.
  pose proof (@compute_scales_R preset ltac:(lia)) as Es.
  set (scales := map (scale_of (num_maps preset)) (range 1 (num_maps preset + 1))) in *.
  destruct (@compute_box_sizes_R scales _
              (scales_R_positive HK) aspect_ratios_R_nonzero (scales_R_distinct HK))
    as [bs [Eb Hbs]].
  pose proof (compute_scales_length _ Es) as Ls.
  unfold get_anchors_for_preset. rewrite Es. cbn [bind].
  rewrite aspect_ratios_R. cbn [bind]. rewrite Eb. cbn [bind].
  unfold for_append.
  rewrite (@range_split (Z.of_nat (length (map_sizes preset)))) by lia.
  rewrite (@mapM_raise _ _ _ _ _ _ IndexError); [reflexivity| |].
  - intros k Hk. apply range_In in Hk.
    destruct (@list_get_in_range _ scales k) as [s Esk]; [lia|].
    pose proof Esk as En. apply list_get_Ok in En; [|lia].
    destruct (Hbs _ _ En) as [sizes [Ed _]].
    destruct (@list_get_in_range _ (map_sizes preset) k) as [msz Em]; [lia|].
    apply (anchors_of_map_R _ _ _ _ Esk Em Ed).
  - unfold anchors_of_map.
    destruct (@list_get_in_range _ scales (Z.of_nat (length (map_sizes preset))))
      as [s Esk]; [lia|].
    rewrite Esk. cbn [bind].
    rewrite list_get_out_of_range by lia. reflexivity.
Qed.

Lemma get_anchors_for_preset_missing_map_size_witness :
  get_anchors_for_preset (F := R)
    {| image_size := mkSize 300 300; num_maps := 3;
       map_sizes := [mkSize 2 2; mkSize 1 1]; num_anchors := 29 |}
  = Raise IndexError.
Proof. apply get_anchors_for_preset_missing_map_size; cbn; lia. Defined.

Lemma get_anchors_for_preset_no_map {F : Type} `{PyNum F} (preset : SSDPreset)
    (ratios : list F) :
  num_maps preset <= 0 ->
  aspect_ratios = Ok ratios ->
  get_anchors_for_preset (F := F) preset = Ok [].
Proof.
  intros HK Er. unfold get_anchors_for_preset, compute_scales.
  assert (Erange : range 1 (num_maps preset + 1) = []).
  { unfold range. replace (Z.to_nat (num_maps preset + 1 - 1)) with 0%nat by lia.
    reflexivity. }
  rewrite Erange. cbn [mapM bind]. rewrite Er. reflexivity.
Qed.

(** X18.  For a preset whose number of feature maps is zero or negative,
    [get_anchors_for_preset] returns the empty list, on the reals as on
    binary64 numbers, whatever the map sizes. *)
Theorem get_anchors_for_preset_nonpositive (preset : SSDPreset) :
  num_maps preset <= 0 ->
  get_anchors_for_preset (F := R) preset = Ok [] /\
  get_anchors_for_preset (F := PrimFloat.float) preset = Ok [].
Proof.
  intros HK. split.
  - apply (get_anchors_for_preset_no_map preset HK aspect_ratios_R).
  - destruct (aspect_ratios (F := PrimFloat.float)) as [ratios|e] eqn:Er;
      [|vm_compute in Er; discriminate].
    apply (get_anchors_for_preset_no_map preset HK Er).
Qed.

Lemma get_anchors_for_preset_nonpositive_witness :
  get_anchors_for_preset (F := R)
    {| image_size := mkSize 300 300; num_maps := 0;
       map_sizes := [mkSize 2 2]; num_anchors := 0 |} = Ok [] /\
  get_anchors_for_preset (F := PrimFloat.float)
    {| image_size := mkSize 300 300; num_maps := 0;
       map_sizes := [mkSize 2 2]; num_anchors := 0 |} = Ok [].
Proof. apply get_anchors_for_preset_nonpositive. cbn. lia. Defined.

(** * Matching against a list of anchors in two parts *)

Lemma mapM_app {A B : Type} (f : A -> result B) (l1 l2 : list A) (bs1 bs2 : list B) :
  mapM f l1 = Ok bs1 -> mapM f l2 = Ok bs2 -> mapM f (l1 ++ l2) = Ok (bs1 ++ bs2).
Proof.
  revert bs1. induction l1 as [|a l1 IH]; intros bs1 E1 E2; cbn [mapM app] in *.
  - injection E1 as <-. exact E2.
  - apply bind_Ok in E1 as [b [Eb E1]]. apply bind_Ok in E1 as [bs [Ebs [= <-]]].
    rewrite Eb. cbn [bind]. rewrite (IH bs Ebs E2). reflexivity.
Qed.

Lemma indexed_shift {A : Type} (l : list A) :
  forall i n, indexed (i + n) l = map (fun ia => (fst ia + n, snd ia)) (indexed i l).
Proof.
  induction l as [|a l IH]; intros i n; cbn [indexed map fst snd]; [reflexivity|].
  f_equal. rewrite <- IH. f_equal. lia.
Qed.

Section MergeFacts.
Context {F : Type} `{PyNum F}.

Lemma fold_match_step_shift (threshold : F) (n : Z) (l : list (Z * F)) :
  forall (best : option (Score F)) (good good' : list (Score F)),
  fst (fold_left (match_step threshold)
                 (map (fun ia => (fst ia + n, snd ia)) l)
                 (option_map (shift_score n) best, good))
  = option_map (shift_score n)
               (fst (fold_left (match_step threshold) l (best, good'))).
Proof.
  induction l as [|[i j] l IH]; intros best good good'; cbn [map fold_left fst snd];
    [reflexivity|].
  unfold match_step at 2 4. destruct (feqb j (fromZ 0)); [apply IH|].
  destruct best as [b|]; cbn [option_map shift_score score_score].
  - destruct (fltb (score_score b) j).
    + apply (IH (Some (mkScore i j))).
    + apply (IH (Some b)).
  - apply (IH (Some (mkScore i j))).
Qed.

Lemma good_of_shift (threshold : F) (n : Z) (js : list F) :
  map (fun nj => mkScore (fst nj) (snd nj))
      (List.filter (fun nj => negb (feqb (snd nj) (fromZ 0)) && fltb threshold (snd nj))
                   (indexed (0 + n) js))
  = map (shift_score n) (good_of threshold js).
Proof.
  unfold good_of. rewrite indexed_shift. generalize (indexed 0 js). intros l.
  induction l as [|[i j] l IH]; [reflexivity|].
  cbn [map List.filter fst snd].
  destruct (negb (feqb j (fromZ 0)) && fltb threshold j); [|exact IH].
  cbn [map fst snd]. rewrite IH. reflexivity.
Qed.
End MergeFacts.

Section MergeReal.
Local Open Scope R_scope.

Lemma merge_best_assoc (a b c : option (Score R)) :
  merge_best (merge_best a b) c = merge_best a (merge_best b c).
Proof.
  destruct a as [[ia va]|], b as [[ib vb]|], c as [[ic vc]|];
    cbn [merge_best score_score]; try reflexivity.
  - destruct (Rlt_dec va vb) as [L1|L1], (Rlt_dec vb vc) as [L2|L2],
             (Rlt_dec va vc) as [L3|L3];
      try (exfalso; lra);
      repeat (match goal with
              | L : ?x < ?y |- context [fltb ?x ?y] => rewrite (fltb_R_true L)
              | L : ~ ?x < ?y |- context [fltb ?x ?y] =>
                  rewrite (@fltb_R_false x y) by lra
              end; cbn [merge_best score_score]);
      reflexivity.
  - destruct (fltb va vb); reflexivity.
Qed.

Lemma fold_match_step_merge (threshold : R) (l : list (Z * R)) :
  forall (best : option (Score R)) (good good' : list (Score R)),
  fst (fold_left (match_step threshold) l (best, good))
  = merge_best best (fst (fold_left (match_step threshold) l (None, good'))).
Proof.
  induction l as [|[i j] l IH]; intros best good good'; cbn [fold_left].
  - cbn [fst]. destruct best; reflexivity.
  - assert (Hstep : forall b g, exists g1,
              match_step threshold (b, g) (i, j)
              = (merge_best b (fst (match_step threshold (None, good') (i, j))), g1)).
    { intros b g. unfold match_step. destruct (feqb j (fromZ 0)); cbn [fst].
      - exists g. destruct b; reflexivity.
      - eexists. destruct b as [sb|]; cbn [merge_best score_score]; reflexivity. }
    destruct (Hstep best good) as [g1 E1]. rewrite E1.
    destruct (match_step threshold (None, good') (i, j)) as [b0 g0] eqn:E0.
    cbn [fst].
    rewrite (IH (merge_best best b0) g1 good'), (IH b0 g0 good').
    apply merge_best_assoc.
Qed.
End MergeReal.

(** X19.  Matching against two lists of anchors one after the other: when
    [compute_overlap] returns for each list, it returns for their
    concatenation; the good scores are those of the first list followed
    by those of the second with their indices moved by the length of the
    first, and the best score is the better of the two best scores, the
    first list winning a tie. *)
Theorem compute_overlap_app
    (prop2abs : Point R -> Size R -> Size Z -> params R)
    (box : Box R) (anchors1 anchors2 : list (Anchor R)) (threshold : R)
    (o1 o2 : Overlap R) :
  compute_overlap prop2abs box anchors1 threshold = Ok o1 ->
  compute_overlap prop2abs box anchors2 threshold = Ok o2 ->
  compute_overlap prop2abs box (anchors1 ++ anchors2) threshold
  = Ok (mkOverlap
          (merge_best (overlap_best o1)
             (option_map (shift_score (Z.of_nat (length anchors1))) (overlap_best o2)))
          (overlap_good o1
           ++ map (shift_score (Z.of_nat (length anchors1))) (overlap_good o2))).
Proof.
  intros E1 E2.
  destruct (compute_overlap_Ok_overlaps _ _ _ _ E1) as [js1 Ej1].
  destruct (compute_overlap_Ok_overlaps _ _ _ _ E2) as [js2 Ej2].
  assert (Ej : overlaps prop2abs box (anchors1 ++ anchors2) = Ok (js1 ++ js2))
    by (apply mapM_app; assumption).
  assert (Ln : length js1 = length anchors1) by (apply (mapM_length _ _ Ej1)).
  rewrite (compute_overlap_fold prop2abs box anchors1 threshold Ej1) in E1.
  rewrite (compute_overlap_fold prop2abs box anchors2 threshold Ej2) in E2.
  rewrite (compute_overlap_fold prop2abs box _ threshold Ej).
  injection E1 as <-. injection E2 as <-. cbn [overlap_best overlap_good].
  rewrite indexed_app, fold_left_app, Ln.
  destruct (fold_left (match_step threshold) (indexed 0 js1) (None, []))
    as [b1 g1] eqn:F1. cbn [fst snd].
  f_equal. f_equal.
  - rewrite (fold_match_step_merge threshold _ b1 g1 []). f_equal.
    rewrite indexed_shift.
    apply (fold_match_step_shift threshold (Z.of_nat (length anchors1))
             (indexed 0 js2) None [] []).
  - rewrite !fold_match_step_good. cbn [app]. f_equal.
    apply good_of_shift.
Qed.

Lemma compute_overlap_app_witness :
  exists o1 o2 : Overlap R,
    compute_overlap prop2abs_example
      (mkBox (mkPoint (1/2) (1/2)) (mkSize (1/2) (1/2)))%R
      [anchor_at (1/10) (1/10) (1/10) (1/10); anchor_at (1/2) (1/2) (1/2) (1/2)]%R
      (1/2)%R = Ok o1 /\
    compute_overlap prop2abs_example
      (mkBox (mkPoint (1/2) (1/2)) (mkSize (1/2) (1/2)))%R
      [anchor_at (1/10) (1/10) (1/10) (1/10); anchor_at (1/2) (1/2) (1/2) (1/2)]%R
      (1/2)%R = Ok o2 /\
    compute_overlap prop2abs_example
      (mkBox (mkPoint (1/2) (1/2)) (mkSize (1/2) (1/2)))%R
      ([anchor_at (1/10) (1/10) (1/10) (1/10); anchor_at (1/2) (1/2) (1/2) (1/2)]
       ++ [anchor_at (1/10) (1/10) (1/10) (1/10); anchor_at (1/2) (1/2) (1/2) (1/2)])%R
      (1/2)%R
    = Ok (mkOverlap
            (merge_best (overlap_best o1)
               (option_map (shift_score 2) (overlap_best o2)))
            (overlap_good o1 ++ map (shift_score 2) (overlap_good o2))).
Proof.
  pose proof (compute_overlap_fold prop2abs_example _ _ (1/2)%R overlaps_example) as E.
  eexists. eexists. split; [exact E|]. split; [exact E|].
  exact (@compute_overlap_app prop2abs_example _ _ _ _ _ _ E E).
Defined.

(** * Matching against anchors of positive area *)

Section ProperBoxes.
Local Open Scope R_scope.

(** The overlap of a well-formed box with a box of positive width and
    height. *)
Lemma jaccard_overlap_proper_R (xmin1 xmax1 ymin1 ymax1 xmin2 xmax2 ymin2 ymax2 : R) :
  xmin1 <= xmax1 -> ymin1 <= ymax1 -> xmin2 < xmax2 -> ymin2 < ymax2 ->
  exists v,
    jaccard_overlap (xmin1, xmax1, ymin1, ymax1) (xmin2, xmax2, ymin2, ymax2) = Ok v /\
    0 <= v <= 1 /\
    (xmin1 < xmax1 -> ymin1 < ymax1 ->
     xmin1 < xmax2 -> xmin2 < xmax1 -> ymin1 < ymax2 -> ymin2 < ymax1 -> 0 < v) /\
    (xmax2 <= xmin1 \/ xmax1 <= xmin2 \/ ymax2 <= ymin1 \/ ymax1 <= ymin2 -> v = 0).
Proof.
  intros Wx1 Wy1 Px2 Py2.
  destruct (Rle_dec xmax2 xmin1) as [G1|G1];
    [|destruct (Rle_dec xmax1 xmin2) as [G2|G2];
      [|destruct (Rle_dec ymax2 ymin1) as [G3|G3];
        [|destruct (Rle_dec ymax1 ymin2) as [G4|G4]]]].
  1-4: exists 0; split;
    [apply jaccard_overlap_guard; lra
    | split; [lra | split; [intros; lra | reflexivity]]].
  apply Rnot_le_lt in G1, G2, G3, G4.
  pose proof (jaccard_overlap_quotient G1 G2 G3 G4) as E.
  set (w := Rmin xmax1 xmax2 - Rmax xmin1 xmin2) in *.
  set (h := Rmin ymax1 ymax2 - Rmax ymin1 ymin2) in *.
  set (w1 := xmax1 - xmin1) in *. set (h1 := ymax1 - ymin1) in *.
  set (w2 := xmax2 - xmin2) in *. set (h2 := ymax2 - ymin2) in *.
  assert (Hw : 0 <= w /\ w <= w1 /\ w <= w2 /\ (0 < w1 -> 0 < w)).
  { subst w w1 w2. unfold Rmin, Rmax.
    destruct (Rle_dec xmax1 xmax2), (Rle_dec xmin1 xmin2); lra. }
  assert (Hh : 0 <= h /\ h <= h1 /\ h <= h2 /\ (0 < h1 -> 0 < h)).
  { subst h h1 h2. unfold Rmin, Rmax.
    destruct (Rle_dec ymax1 ymax2), (Rle_dec ymin1 ymin2); lra. }
  assert (H1 : 0 <= w1 /\ 0 <= h1 /\ 0 < w2 /\ 0 < h2) by (subst w1 h1 w2 h2; lra).
  assert (P1 : xmin1 < xmax1 -> 0 < w1) by (subst w1; lra).
  assert (P2 : ymin1 < ymax1 -> 0 < h1) by (subst h1; lra).
  clearbody w h w1 h1 w2 h2.
  assert (I0 : 0 <= w * h) by nra.
  assert (I1 : w * h <= w1 * h1) by nra.
  assert (I2 : w * h <= w2 * h2) by nra.
  assert (A2 : 0 < w2 * h2) by nra.
  assert (U : 0 < w1 * h1 + w2 * h2 - w * h) by lra.
  rewrite pydiv_R in E by lra.
  exists (w * h / (w1 * h1 + w2 * h2 - w * h)).
  split; [exact E|]. split; [|split].
  - split.
    + apply Rmult_le_pos; [lra | left; apply Rinv_0_lt_compat; lra].
    + apply (Rmult_le_reg_r (w1 * h1 + w2 * h2 - w * h)); [lra|].
      unfold Rdiv. rewrite Rmult_assoc, Rinv_l by lra. lra.
  - intros Q1 Q2 _ _ _ _. apply Rdiv_lt_0_compat; [|exact U].
    apply Rmult_lt_0_compat; [apply Hw | apply Hh]; auto.
  - intros G. lra.
Qed.
End ProperBoxes.

(** X20.  For two boxes of positive width and height, the overlap is
    defined, lies between 0 and 1, and is zero exactly when the boxes do
    not overlap. *)
Theorem jaccard_overlap_zero_iff (p1 p2 : params R) :
  proper p1 -> proper p2 ->
  exists v : R,
    jaccard_overlap p1 p2 = Ok v /\ (0 <= v <= 1)%R /\
    (v = 0%R <-> ~ overlapping p1 p2).
Proof.
  destruct p1 as [[[xmin1 xmax1] ymin1] ymax1].
  destruct p2 as [[[xmin2 xmax2] ymin2] ymax2].
  unfold proper, overlapping. intros [Px1 Py1] [Px2 Py2].
  destruct (@jaccard_overlap_proper_R xmin1 xmax1 ymin1 ymax1 xmin2 xmax2 ymin2 ymax2)
    as [v [E [Hr [Hpos Hzero]]]]; try lra.
  exists v. split; [exact E|]. split; [exact Hr|]. split.
  - intros -> [G1 [G2 [G3 G4]]]. specialize (Hpos Px1 Py1 G1 G2 G3 G4). lra.
  - intros N. apply Hzero.
    destruct (Rle_dec xmax2 xmin1); [lra|]. destruct (Rle_dec xmax1 xmin2); [lra|].
    destruct (Rle_dec ymax2 ymin1); [lra|]. destruct (Rle_dec ymax1 ymin2); [lra|].
    exfalso. apply N. lra.
Qed.

Lemma jaccard_overlap_zero_iff_witness :
  exists v : R,
    jaccard_overlap (0, 10, 0, 10)%R (5, 15, 5, 15)%R = Ok v /\ (0 <= v <= 1)%R /\
    (v = 0%R <-> ~ overlapping (0, 10, 0, 10)%R (5, 15, 5, 15)%R).
Proof. apply jaccard_overlap_zero_iff; unfold proper; lra. Defined.

(** X21.  Matching never fails against anchors of positive area: when the
    conversion to absolute coordinates gives a well-formed box for the
    ground-truth box and a box of positive width and height for every
    anchor, [compute_overlap] returns, and every score it returns, best or
    good, lies in (0, 1]. *)
Theorem compute_overlap_defined
    (prop2abs : Point R -> Size R -> Size Z -> params R)
    (box : Box R) (anchors : list (Anchor R)) (threshold : R) :
  well_formed (prop2abs (box_center box) (box_size box) (mkSize 1000 1000)) ->
  (forall a, In a anchors ->
     proper (prop2abs (anchor_center a) (anchor_size a) (mkSize 1000 1000))) ->
  exists ov : Overlap R,
    compute_overlap prop2abs box anchors threshold = Ok ov /\
    (forall b, overlap_best ov = Some b -> (0 < score_score b <= 1)%R) /\
    (forall sc, In sc (overlap_good ov) -> (0 < score_score sc <= 1)%R).
Proof.
  intros Wb Pa.
  assert (Hjs : exists js, overlaps prop2abs box anchors = Ok js /\
                           forall j, In j js -> (0 <= j <= 1)%R).
  { unfold overlaps.
    destruct (prop2abs (box_center box) (box_size box) (mkSize 1000 1000))
      as [[[xmin1 xmax1] ymin1] ymax1]. destruct Wb as [Wx Wy].
    induction anchors as [|a anchors IH]; cbn [mapM].
    - exists []. split; [reflexivity | intros j []].
    - destruct IH as [js [Ejs Hjs]]; [intros a' Ha'; apply Pa; right; exact Ha'|].
      specialize (Pa a (or_introl eq_refl)).
      destruct (prop2abs (anchor_center a) (anchor_size a) (mkSize 1000 1000))
        as [[[xmin2 xmax2] ymin2] ymax2]. destruct Pa as [Px Py].
      destruct (@jaccard_overlap_proper_R xmin1 xmax1 ymin1 ymax1
                  xmin2 xmax2 ymin2 ymax2 Wx Wy Px Py) as [v [E [Hr _]]].
      exists (v :: js). rewrite E. cbn [bind]. rewrite Ejs. cbn [bind].
      split; [reflexivity|]. intros j [<-|Hj]; [exact Hr | apply Hjs; exact Hj]. }
  destruct Hjs as [js [Ej Hr]].
  rewrite (compute_overlap_fold prop2abs box anchors threshold Ej).
  eexists. split; [reflexivity|]. cbn [overlap_best overlap_good].
  rewrite fold_match_step_good. cbn [app]. fold (good_of threshold js).
  pose proof (fold_match_step_best threshold js) as B. split.
  - intros b Eb. rewrite Eb in B. cbn [best_of] in B.
    destruct B as [n [_ [Hn [Hnz _]]]]. apply nth_error_In in Hn.
    specialize (Hr _ Hn). lra.
  - intros [i j] Hsc. apply good_of_In in Hsc as [n [_ [Hn [Hz _]]]].
    apply nth_error_In in Hn. specialize (Hr _ Hn). cbn [score_score]. lra.
Qed.

Lemma compute_overlap_defined_witness :
  exists ov : Overlap R,
    compute_overlap prop2abs_example
      (mkBox (mkPoint (1/2) (1/2)) (mkSize (1/2) (1/2)))%R
      [anchor_at (1/10) (1/10) (1/10) (1/10); anchor_at (1/2) (1/2) (1/2) (1/2)]%R
      (1/2)%R = Ok ov /\
    (forall b, overlap_best ov = Some b -> (0 < score_score b <= 1)%R) /\
    (forall sc, In sc (overlap_good ov) -> (0 < score_score sc <= 1)%R).
Proof.
  apply compute_overlap_defined.
  - unfold well_formed, prop2abs_example. cbn. lra.
  - intros a [<-|[<-|[]]]; unfold proper, prop2abs_example, anchor_at; cbn; lra.
Defined.

(** * Runs on binary64 numbers *)

Module FloatRuns.
Import PrimFloat.
Local Open Scope float_scope.

(** The scales and the aspect ratios of the six feature maps, as Python
    computes them. *)
Example compute_scales_float :
  compute_scales (F := PrimFloat.float) vgg300
  = Ok [0x1.999999999999ap-3; 0x1.5c28f5c28f5c2p-2; 0x1.eb851eb851eb8p-2;
        0x1.3d70a3d70a3d6p-1; 0x1.851eb851eb852p-1; 0x1.cccccccccccccp-1].
Proof. vm_compute. reflexivity. Qed.

Example aspect_ratios_float :
  aspect_ratios (F := PrimFloat.float)
  = Ok [0x1p+0; 0x1.6a09e667f3bcdp+0; 0x1.bb67ae8584caap+0;
        0x1.6a09e667f3bcdp-1; 0x1.279a74590331cp-1].
Proof. vm_compute. reflexivity. Qed.

(** A box against an anchor away from it and an anchor equal to it, with
    the threshold 0.5: the second anchor is the best and the only good
    one, with overlap 1. *)
Example compute_overlap_float :
  compute_overlap (F := PrimFloat.float) prop2abs_example
    (mkBox (mkPoint 0.5 0.5) (mkSize 0.5 0.5))
    [anchor_at (decimal 1 1) (decimal 1 1) (decimal 1 1) (decimal 1 1);
     anchor_at 0.5 0.5 0.5 0.5]
    0.5
  = Ok (mkOverlap (Some (mkScore 1%Z 1)) [mkScore 1%Z 1]).
Proof. vm_compute. reflexivity. Qed.
End FloatRuns.
